(** * golf-scraper: the resumable scrape loop, its checkpoint store and helpers

  A shallow embedding of the JavaScript sources

  - [src/utils/progressManager.js]      (module [ProgressManager])
  - [src/lib/scraperController.js]      (module [ScraperController])
  - the [retry] helper of sggolf_detail.js / thekgolf_basic.js (module [Retry])
  - [isValidPhoneNumber] of okongolf.js / sggolf_basic.js (module [Phone])
  - the scrape loops of thekgolf.js ([TheKgolf]), friendgolf.js
    ([FriendGolf]), citeezen.js ([Citeezen]), fieldzone.js ([Fieldzone]) and
    okongolf.js ([Okongolf])

  Asynchronous functions are written in state-passing style: an [await]ed
  call is a function from the state before to a completion and the state
  after.  What lies outside the program is given by oracles:

  - the page fetcher (puppeteer, axios) maps a unit to what its fetch
    produced, an error included;
  - the stop endpoint of the dashboard says before which polls of the
    status registry a stop request has arrived.

  The result sink is taken to be reliable: [fs.writeJson] succeeds and a
  file that exists parses.  Delays are not modelled in the scrape loops.
  The tasks that p-limit runs for one page are run in index order, the order
  in which they reach their first [await], and a task that throws does not
  stop the others. *)

From Stdlib Require Import ZArith Ascii String List Bool Lia.
From stdpp Require Import base option gmap strings pretty list fin_maps.
Import ListNotations.

(** ** JavaScript completions *)

(** The errors the modelled code can raise. *)
Inductive JsError : Type :=
| RangeError                              (* Array(len) with an invalid length *)
| ReferenceError (ident : string)         (* use of an undeclared identifier *)
| ScraperStoppedError                     (* class ScraperStoppedError *)
| Error (message : string).               (* any other Error *)

(** A completion is a normal value or a thrown error. *)
Inductive Completion (A : Type) : Type :=
| Normal (a : A)
| Throw (e : JsError).
Arguments Normal {A} & a.
Arguments Throw {A} e.

(** The value a caller may pass for an optional numeric parameter. *)
Inductive JsArg : Type :=
| JsUndefined                             (* argument omitted *)
| JsObject                                (* some object *)
| JsNumber (n : Z).                       (* an integral number *)

(** ** src/lib/scraperController.js *)

Module ScraperController.

Inductive Status : Type := idle | running | stopped.

#[export] Instance Status_eq_dec : EqDecision Status.
Proof. solve_decision. Defined.

(** [const scraperStatus = new Map()] *)
Abbreviation StatusRegistry := (gmap string Status).

Definition setScraperStatus (scraperId : string) (status : Status)
    (scraperStatus : StatusRegistry) : StatusRegistry :=
  <[scraperId := status]> scraperStatus.

(** [scraperStatus.get(scraperId) || 'idle'] *)
Definition getScraperStatus (scraperId : string)
    (scraperStatus : StatusRegistry) : Status :=
  match scraperStatus !! scraperId with
  | Some s => s
  | None => idle
  end.

Definition stopScraper (scraperId : string) : StatusRegistry -> StatusRegistry :=
  setScraperStatus scraperId stopped.

Definition resetScraper (scraperId : string) : StatusRegistry -> StatusRegistry :=
  setScraperStatus scraperId idle.

End ScraperController.
Export ScraperController.

(** ** src/utils/progressManager.js *)

Module ProgressManager.

(** A progress record is a JavaScript object; the fields are the ones the
    scrapers and [readProgress] write.  [None] is a field that is absent
    (reads as [undefined]). *)
Record ProgressRecord : Type := mkProgress {
  lastProcessedRegionIndex : option nat;
  regionsProgress : option (list nat);
  currentShopIndex : option nat;
  currentRegionIndex : option nat;
  currentPageIndex : option nat;
  currentPage : option nat;
  processedIndexes : option (gmap nat (list nat));
  completed : option nat
}.

(** The object literal [{}]. *)
Definition emptyRecord : ProgressRecord :=
  mkProgress None None None None None None None None.

(** [Array(len).fill(0)]: a number must be a valid array length, any other
    argument becomes the single element of a one-element array, which
    [fill] then overwrites. *)
Definition Array_fill0 (len : JsArg) : Completion (list nat) :=
  match len with
  | JsNumber n =>
      if ((0 <=? n) && (n <? 2 ^ 32))%Z
      then Normal (replicate (Z.to_nat n) 0)
      else Throw RangeError
  | JsUndefined | JsObject => Normal [0]
  end.

(** [{ lastProcessedRegionIndex: 0, regionsProgress: ... }] *)
Definition defaultRecord (regions : list nat) : ProgressRecord :=
  mkProgress (Some 0) (Some regions) None None None None None None.

(** What a lookup in [progressStore] can give: a record, or something the
    store object inherits. *)
Inductive Value : Type :=
| VUndefined
| VNumber (n : nat)
| VArray (elements : list nat)
| VIndexes (indexes : gmap nat (list nat))
| VRecord (r : ProgressRecord)
| VBuiltin (name : string)      (* the function [Object.prototype[name]] *)
| VObjectPrototype.             (* [Object.prototype] itself *)

Coercion VRecord : ProgressRecord >-> Value.

(** [!value] is [false] *)
Definition truthy (v : Value) : bool :=
  match v with
  | VUndefined | VNumber 0 => false
  | _ => true
  end.

(** [value.name] for the names of the fields of a record, and what
    [let { name } = value] binds: a value that is no record has none of
    these fields.  The scrapers read under their own ids, under which
    nothing is inherited, so what they destructure, change and save again is
    a record. *)
Definition fields (v : Value) : ProgressRecord :=
  match v with
  | VRecord r => r
  | _ => emptyRecord
  end.

(** The names of the fields of a record. *)
Definition fieldNames : list string :=
  ["lastProcessedRegionIndex"; "regionsProgress"; "currentShopIndex"; "currentRegionIndex";
   "currentPageIndex"; "currentPage"; "processedIndexes"; "completed"].

(** [record[name]], [None] when the record has no such own property. *)
Definition field (r : ProgressRecord) (name : string) : option Value :=
  if String.eqb name "lastProcessedRegionIndex" then VNumber <$> lastProcessedRegionIndex r
  else if String.eqb name "regionsProgress" then VArray <$> regionsProgress r
  else if String.eqb name "currentShopIndex" then VNumber <$> currentShopIndex r
  else if String.eqb name "currentRegionIndex" then VNumber <$> currentRegionIndex r
  else if String.eqb name "currentPageIndex" then VNumber <$> currentPageIndex r
  else if String.eqb name "currentPage" then VNumber <$> currentPage r
  else if String.eqb name "processedIndexes" then VIndexes <$> processedIndexes r
  else if String.eqb name "completed" then VNumber <$> completed r
  else None.

(** The data properties of [Object.prototype], all functions. *)
Definition objectPrototype : list string :=
  ["constructor"; "hasOwnProperty"; "isPrototypeOf"; "propertyIsEnumerable";
   "toLocaleString"; "toString"; "valueOf";
   "__defineGetter__"; "__defineSetter__"; "__lookupGetter__"; "__lookupSetter__"].

(** [const progressStore = {}], an ordinary object used as a dictionary.
    The map holds its own properties, all of them records.  The name
    ["__proto__"] is no own property: it is the accessor of
    [Object.prototype], whose setter makes the assigned record the prototype
    of the store and whose getter returns the prototype.  The map keeps the
    record assigned last under that name; without one the prototype is
    [Object.prototype]. *)
Abbreviation ProgressStore := (gmap string ProgressRecord).

(** What the prototype chain of the store gives for a name. *)
Definition inherited (progressStore : ProgressStore) (name : string) : option Value :=
  if String.eqb name "__proto__" then
    Some (match progressStore !! "__proto__" with
          | Some proto => VRecord proto
          | None => VObjectPrototype
          end)
  else
    match progressStore !! "__proto__" ≫= (fun proto => field proto name) with
    | Some v => Some v
    | None => if bool_decide (name ∈ objectPrototype) then Some (VBuiltin name) else None
    end.

(** [progressStore[taskName]]: the own property, or else what is inherited. *)
Definition get (progressStore : ProgressStore) (taskName : string) : Value :=
  match (if String.eqb taskName "__proto__" then None else progressStore !! taskName) with
  | Some r => VRecord r
  | None => default VUndefined (inherited progressStore taskName)
  end.

(** A name under which the store inherits nothing, whatever its prototype. *)
Definition plain (name : string) : bool :=
  negb (String.eqb name "__proto__")
  && negb (bool_decide (name ∈ objectPrototype))
  && negb (bool_decide (name ∈ fieldNames)).

(** The assignment in the body is reached only when the lookup was falsy,
    which it never is for ["__proto__"], so it adds an own property. *)
Definition readProgress (taskName : string) (totalRegions : JsArg)
    (progressStore : ProgressStore) : Completion Value * ProgressStore :=
  if truthy (get progressStore taskName) then (Normal (get progressStore taskName), progressStore)
  else
    match Array_fill0 totalRegions with
    | Normal regions =>
        let progressStore := <[taskName := defaultRecord regions]> progressStore in
        (Normal (get progressStore taskName), progressStore)
    | Throw e => (Throw e, progressStore)
    end.

(** [progressStore[taskName] = progress]: a new or replaced own property;
    for ["__proto__"] the setter replaces the prototype. *)
Definition saveProgress (taskName : string) (progress : ProgressRecord)
    (progressStore : ProgressStore) : ProgressStore :=
  <[taskName := progress]> progressStore.

(** The assignments [progress.currentPage = v] and
    [progress.processedIndexes = v] of the scrapers. *)
Definition set_currentPage (v : nat) (r : ProgressRecord) : ProgressRecord :=
  mkProgress (lastProcessedRegionIndex r) (regionsProgress r) (currentShopIndex r)
    (currentRegionIndex r) (currentPageIndex r) (Some v) (processedIndexes r) (completed r).

Definition set_processedIndexes (v : gmap nat (list nat)) (r : ProgressRecord) : ProgressRecord :=
  mkProgress (lastProcessedRegionIndex r) (regionsProgress r) (currentShopIndex r)
    (currentRegionIndex r) (currentPageIndex r) (currentPage r) (Some v) (completed r).

End ProgressManager.
Export ProgressManager.

(** ** The [retry] helper (sggolf_detail.js, thekgolf_basic.js, sggolf_basic.js) *)

Module Retry.

(** What [retry] does besides calling [fn]. *)
Inductive Event : Type :=
| Invoke (attempt : nat)                            (* fn() *)
| LogWarn (attempt retries : nat) (error : JsError) (* logWarn of the failed attempt *)
| Sleep (ms : nat).                                 (* await sleep(ms) *)

Section Retry.

(** [W] is whatever [fn] can read and change (the page, the network);
    [fn] takes no argument from [retry]. *)
Context {W A : Type}.
Variable fn : W -> Completion A * W.

(** The body of
    [for (let attempt = 1; attempt <= retries; attempt++)] from [attempt] on;
    [remaining] counts the iterations still allowed by [attempt <= retries].
    The result is [None] when the loop ends without a [return]
    (the function returns [undefined]). *)
Fixpoint retry_from (retries remaining attempt : nat) (w : W) (events : list Event)
    : Completion (option A) * W * list Event :=
  match remaining with
  | 0 => (Normal None, w, events)
  | S remaining' =>
      match fn w with
      | (Normal a, w') => (Normal (Some a), w', events ++ [Invoke attempt])
      | (Throw error, w') =>
          if attempt =? retries
          then (Throw error, w', events ++ [Invoke attempt])
          else retry_from retries remaining' (S attempt) w'
                 (events ++ [Invoke attempt; LogWarn attempt retries error; Sleep 1000])
      end
  end.

(** [async function retry(fn, retries = 3)] *)
Definition retry (retries : nat) (w : W) : Completion (option A) * W * list Event :=
  retry_from retries retries 1 w [].

Definition retry_default : W -> Completion (option A) * W * list Event := retry 3.

(** The world after [n] consecutive calls of [fn], and the completion of the
    [k]-th call ([k >= 1]) in such a sequence. *)
Fixpoint world_after (n : nat) (w : W) : W :=
  match n with
  | 0 => w
  | S n' => snd (fn (world_after n' w))
  end.

Definition attempt_result (k : nat) (w : W) : Completion A :=
  fst (fn (world_after (k - 1) w)).

End Retry.

(** The calls and the waits of a run of [retry], in order, without the
    warnings; and what they are when the [k]-th attempt is the last one and
    one second passes between two attempts. *)
Definition timeline (events : list Event) : list Event :=
  List.filter (fun e => match e with LogWarn _ _ _ => false | _ => true end) events.

Definition attempts_one_second_apart (k : nat) : list Event :=
  flat_map (fun j => [Invoke j; Sleep 1000]) (seq 1 (k - 1)) ++ [Invoke k].

End Retry.

(** ** [isValidPhoneNumber] (okongolf.js, sggolf_basic.js) *)

Module Phone.

(** *** The fragment of ECMAScript regular expressions used by the validator.

    Matching follows the continuation-passing matchers of the ECMAScript
    specification: a matcher takes the current state and a continuation for
    the rest of the pattern.  A state is the number of characters already
    consumed and the input that remains. *)

Inductive Node : Type :=
  | AssertStart                          (* ^  (no multiline flag) *)
  | AssertEnd                            (* $  (no multiline flag) *)
  | Digit                                (* \d *)
  | Char (c : ascii)                     (* a literal character *)
  | Quant (atom : Node) (min max : nat)  (* atom{min,max}, greedy *)
  | Plus (atom : Node)                   (* atom+, greedy *)
  | Seq (a b : Node).

Definition State : Type := nat * list ascii.
Definition Continuation : Type := State -> bool.
Definition Matcher : Type := State -> Continuation -> bool.

(** [\d] is [0-9]. *)
Definition isDigit (c : ascii) : bool :=
  (48 <=? nat_of_ascii c) && (nat_of_ascii c <=? 57).

Definition characterSetMatcher (member : ascii -> bool) : Matcher :=
  fun x k =>
    match x with
    | (consumed, ch :: rest) => if member ch then k (S consumed, rest) else false
    | (_, []) => false
    end.

(** RepeatMatcher for a bounded greedy quantifier: while [min] is not
    reached the atom must match; after that one more repetition is tried
    first and the continuation second.  The atoms quantified in this
    program consume one character per repetition, so [atom+] is the
    quantifier bounded by the length of the remaining input. *)
Fixpoint repeatMatcher (m : Matcher) (min max : nat) (x : State) (k : Continuation) : bool :=
  match max with
  | 0 => k x
  | S max' =>
      match min with
      | S min' => m x (fun y => repeatMatcher m min' max' y k)
      | 0 => m x (fun y => repeatMatcher m 0 max' y k) || k x
      end
  end.

Fixpoint compile (n : Node) : Matcher :=
  match n with
  | AssertStart => fun x k => match x with (0, _) => k x | _ => false end
  | AssertEnd => fun x k => match x with (_, []) => k x | _ => false end
  | Digit => characterSetMatcher isDigit
  | Char c => characterSetMatcher (Ascii.eqb c)
  | Quant atom min max => repeatMatcher (compile atom) min max
  | Plus atom => fun x k => repeatMatcher (compile atom) 1 (length x.2) x k
  | Seq a b => fun x k => compile a x (fun y => compile b y k)
  end.

(** RegExpBuiltinExec without the global or sticky flag: try every start
    index from 0 to the length of the input. *)
Fixpoint exec_from (m : Matcher) (consumed : nat) (rest : list ascii) : bool :=
  m (consumed, rest) (fun _ => true)
  || match rest with
     | [] => false
     | _ :: rest' => exec_from m (S consumed) rest'
     end.

(** [regex.test(str)] *)
Definition test (regex : Node) (str : string) : bool :=
  exec_from (compile regex) 0 (list_ascii_of_string str).

(** [/^\d{2,3}-\d{3,4}-\d{4}$/] *)
Definition phoneRegex : Node :=
  Seq AssertStart
   (Seq (Quant Digit 2 3)
     (Seq (Char "-")
       (Seq (Quant Digit 3 4)
         (Seq (Char "-")
           (Seq (Quant Digit 4 4) AssertEnd))))).

Definition isValidPhoneNumber (phoneStr : string) : bool :=
  if String.eqb phoneStr "-" || String.eqb phoneStr ""
  then true
  else test phoneRegex phoneStr.

(** *** The pattern as the specification words it:
    digits(2-3) [-] digits(3-4) [-] digits(4). *)

Definition digits (lo hi : nat) (s : list ascii) : Prop :=
  lo <= length s <= hi /\ Forall (fun c => isDigit c = true) s.

Definition phone_pattern (p : string) : Prop :=
  exists a b c : list ascii,
    list_ascii_of_string p = a ++ ["-"%char] ++ b ++ ["-"%char] ++ c
    /\ digits 2 3 a /\ digits 3 4 b /\ digits 4 4 c.

End Phone.

(** ** What a scrape loop reads and writes *)

Module Env.

(** The observable steps of a loop over units of type [U].  Only the log lines
    that tell the branches apart are kept; delays are not modelled. *)
Inductive Event (U : Type) : Type :=
| UnitStart (u : U)                 (* the loop body is entered for [u] *)
| Fetch (u : U)                     (* the page fetcher is asked for [u] *)
| LogWarn (u : U)                   (* logWarn about [u] *)
| LogError (u : U) (e : JsError).   (* logError about [u] *)
Arguments UnitStart {U} u.
Arguments Fetch {U} u.
Arguments LogWarn {U} u.
Arguments LogError {U} u e.

(** The process-wide singletons and the result sink of one job whose records
    have type [R].  [w_output] is the job's OUTPUT_FILE, [None] while the file
    does not exist; writing it succeeds and a file that exists parses. *)
Record World (U R : Type) : Type := mkWorld {
  w_progress : gmap string ProgressRecord;
  w_status : gmap string Status;
  w_output : option (list R);
  w_events : list (Event U)
}.
Arguments mkWorld {U R} _ _ _ _.
Arguments w_progress {U R} _.
Arguments w_status {U R} _.
Arguments w_output {U R} _.
Arguments w_events {U R} _.

Section Updates.
Context {U R : Type}.

(** [await saveProgress(id, progress)] *)
Definition save (id : string) (progress : ProgressRecord) (w : World U R) : World U R :=
  mkWorld (saveProgress id progress (w_progress w)) (w_status w) (w_output w) (w_events w).

(** [setScraperStatus], [resetScraper] and a stop request of the dashboard. *)
Definition status (f : gmap string Status -> gmap string Status) (w : World U R) : World U R :=
  mkWorld (w_progress w) (f (w_status w)) (w_output w) (w_events w).

(** [await fs.writeJson(OUTPUT_FILE, records, { spaces: 2 })] *)
Definition writeJson (records : list R) (w : World U R) : World U R :=
  mkWorld (w_progress w) (w_status w) (Some records) (w_events w).

(** The array a scraper starts from: the content of OUTPUT_FILE when it
    exists, [[]] otherwise. *)
Definition loadAll (w : World U R) : list R :=
  match w_output w with
  | Some records => records
  | None => []
  end.

Definition emit (e : Event U) (w : World U R) : World U R :=
  mkWorld (w_progress w) (w_status w) (w_output w) (w_events w ++ [e]).

(** A stop request that arrives just before a poll. *)
Definition arrive (id : string) (requested : bool) (w : World U R) : World U R :=
  if requested then status (stopScraper id) w else w.

End Updates.

(** How an [async] scraper function ends. *)
Inductive RunEnd : Type :=
| Completed                 (* resolved at the end of its [try] block *)
| Halted                    (* resolved after it stopped on a stop request *)
| Caught (e : JsError)      (* resolved after its [catch] handled [e] *)
| Rejected (e : JsError).   (* the promise is rejected with [e] *)

End Env.
Export Env.

(** ** thekgolf.js: [scrapeTheKgolf], one unit per shop of the input file *)

Module TheKgolf.

Definition scraperId : string := "thekgolf".

Record Shop : Type := mkShop {
  shopId : option string;     (* [None] when falsy *)
  name : string
}.

Record Sensor : Type := mkSensor { sensorName : string; sensorCount : string }.

(** [{ ...shop, sensors }] *)
Record DetailedShop : Type := mkDetailed { shop : Shop; sensors : list Sensor }.

(** What [axios.post(ajax_shop_detail)] and the parse of its body give. *)
Inductive Response : Type :=
| ShopDetail (sensors : list Sensor)   (* response.data.shopDetail is there *)
| NoDetail                             (* it is not *)
| RequestFailed (e : JsError).         (* the request or the parse throws *)

(** INPUT_FILE *)
Inductive InputFile : Type :=
| Missing
| Unreadable (e : JsError)
| Readable (shops : list Shop).

Abbreviation World := (Env.World nat DetailedShop).

Definition atShop (shopIndex : nat) : ProgressRecord :=
  mkProgress None None (Some shopIndex) None None None None None.

Section Scraper.

(** [post u] is the answer to the request made for the shop at index [u];
    [stopAt u] says that a stop request arrived between the previous poll and
    the poll at the start of unit [u]. *)
Variable post : nat -> Response.
Variable stopAt : nat -> bool.

(** [for (let shopIndex = currentShopIndex; shopIndex < shops.length; shopIndex++)]
    over the shops from [shopIndex] on; a [Throw] leaves the [try] block. *)
Fixpoint loop (rest : list Shop) (shopIndex : nat) (detailedShops : list DetailedShop)
    (w : World) : Completion (list DetailedShop) * World :=
  match rest with
  | [] => (Normal detailedShops, w)
  | shop :: rest' =>
      let w := arrive scraperId (stopAt shopIndex) (emit (UnitStart shopIndex) w) in
      if decide (getScraperStatus scraperId (w_status w) = stopped) then
        (Throw ScraperStoppedError,
         status (resetScraper scraperId) (save scraperId (atShop shopIndex) w))
      else
        match shopId shop with
        | None => loop rest' (S shopIndex) detailedShops (emit (LogWarn shopIndex) w)
        | Some _ =>
            let w := emit (Fetch shopIndex) w in
            match post shopIndex with
            | ShopDetail sensors =>
                let detailedShops := detailedShops ++ [mkDetailed shop sensors] in
                loop rest' (S shopIndex) detailedShops
                  (save scraperId (atShop (shopIndex + 1)) (writeJson detailedShops w))
            | NoDetail =>
                loop rest' (S shopIndex) detailedShops
                  (save scraperId (atShop (shopIndex + 1)) (emit (LogWarn shopIndex) w))
            | RequestFailed e =>
                loop rest' (S shopIndex) detailedShops
                  (save scraperId (atShop shopIndex) (emit (LogError shopIndex e) w))
            end
        end
  end.

(** The end of the [try] block and the [catch] of [scrapeTheKgolf]. *)
Definition finish (r : Completion (list DetailedShop) * World) : RunEnd * World :=
  match r with
  | (Normal detailedShops, w) =>
      (Completed, status (resetScraper scraperId) (writeJson detailedShops w))
  | (Throw ScraperStoppedError, w) => (Halted, w)
  | (Throw e, w) => (Caught e, status (setScraperStatus scraperId stopped) w)
  end.

Definition scrapeTheKgolf (input : InputFile) (w : World) : RunEnd * World :=
  let w := status (setScraperStatus scraperId running) w in
  match readProgress scraperId JsUndefined (w_progress w) with
  | (Throw e, _) => (Rejected e, w)
  | (Normal value, store) =>
      let progress := fields value in
      let w := mkWorld store (w_status w) (w_output w) (w_events w) in
      let start := match currentShopIndex progress with Some i => i | None => 0 end in
      match input with
      | Missing =>
          (Rejected (Error "input file does not exist"),
           status (setScraperStatus scraperId stopped) w)
      | Unreadable e => (Rejected e, status (setScraperStatus scraperId stopped) w)
      | Readable shops => finish (loop (drop start shops) start (loadAll w) w)
      end
  end.


End Scraper.

(** No stop request is pending. *)
Definition calm (w : World) : Prop :=
  getScraperStatus scraperId (w_status w) ≠ stopped.

(** The dashboard that never asks to stop. *)
Definition never : nat -> bool := fun _ => false.

(** The unit at which a run that starts in [w] begins. *)
Definition startIndex (w : World) : nat :=
  match w_progress w !! scraperId with
  | Some progress => match currentShopIndex progress with Some i => i | None => 0 end
  | None => 0
  end.

End TheKgolf.

(** ** friendgolf.js: [scrapeFriendgolf], one unit per district of a region *)

Module FriendGolf.

Definition scraperId : string := "friendgolf".

Record Shop : Type := mkShop {
  name : option string;
  address : option string;
  tel : option string;
  shopId : option string      (* the digits of [shop_detail(...)], or [null] *)
}.

(** An entry of [regions]. *)
Record Region : Type := mkRegion { province : string; districts : list string }.

(** [const regions]: the table as the file has it, one province with its 25
    districts.  The loops below take the table as an argument. *)
Definition regions : list Region :=
  [mkRegion "서울특별시"
     ["종로구"; "중구"; "용산구"; "성동구"; "광진구"; "동대문구"; "중랑구"; "성북구"; "강북구";
      "도봉구"; "노원구"; "은평구"; "서대문구"; "마포구"; "양천구"; "강서구"; "구로구"; "금천구";
      "영등포구"; "동작구"; "관악구"; "서초구"; "강남구"; "송파구"; "강동구"]].

(** A unit is a pair [(regionIndex, pageIndex)]. *)
Abbreviation World := (Env.World (nat * nat) Shop).

(** One pass of the [while (true)] loop that found the button visible. *)
Inductive MoreRound : Type :=
| Clicked (newShops : list Shop)   (* the click worked, the list was read again *)
| ClickFailed (e : JsError).       (* the click or the read threw *)

(** What the search for a district gives.  After the rounds of [more] the
    button is gone or hidden. *)
Inductive Search : Type :=
| SearchFailed (e : JsError)       (* goto, select, type or press threw *)
| NoResults (e : JsError)          (* waitForSelector timed out *)
| Results (shops : list Shop) (more : list MoreRound).

Definition atPage (regionIndex pageIndex : nat) : ProgressRecord :=
  mkProgress None None None (Some regionIndex) (Some pageIndex) None None None.

(** [newShops.filter(shop => shop.shopId && !existingShopIds.has(shop.shopId))]
    with [existingShopIds = new Set(allShops.map(shop => shop.shopId))]. *)
Definition uniqueNewShops (allShops newShops : list Shop) : list Shop :=
  List.filter (fun shop =>
                 match shopId shop with
                 | Some id => bool_decide (Some id ∉ map shopId allShops)
                 | None => false
                 end) newShops.

(** The [Map] keyed by [shopId] built after each region: the first shop of
    every id, in insertion order; shops without an id are left out. *)
Fixpoint uniqueFrom (seen : list string) (allShops : list Shop) : list Shop :=
  match allShops with
  | [] => []
  | shop :: rest =>
      match shopId shop with
      | Some id =>
          if decide (id ∈ seen) then uniqueFrom seen rest
          else shop :: uniqueFrom (id :: seen) rest
      | None => uniqueFrom seen rest
      end
  end.

Definition uniqueShops : list Shop -> list Shop := uniqueFrom [].

Section Scraper.

(** [search u] is what the site answers for unit [u]; [stopAt u] is a stop
    request that arrived before the poll at the start of [u], and
    [stopInner u i] one that arrived before the poll after round [i] of the
    [more] loop of [u]. *)
Variable search : nat * nat -> Search.
Variable stopAt : nat * nat -> bool.
Variable stopInner : nat * nat -> nat -> bool.

(** The [while (true)] loop.  The array [allShops] is changed in place, so it
    is returned with a thrown error as well. *)
Fixpoint moreLoop (rounds : list MoreRound) (round : nat) (u : nat * nat)
    (allShops : list Shop) (w : World) : Completion unit * list Shop * World :=
  match rounds with
  | [] => (Normal tt, allShops, w)
  | r :: rounds' =>
      let '(allShops, w) :=
        match r with
        | Clicked newShops =>
            let allShops := allShops ++ uniqueNewShops allShops newShops in
            (allShops, writeJson allShops w)
        | ClickFailed e => (allShops, emit (LogError u e) w)
        end in
      let w := arrive scraperId (stopInner u round) w in
      if decide (getScraperStatus scraperId (w_status w) = stopped) then
        (Throw ScraperStoppedError, allShops,
         status (resetScraper scraperId) (save scraperId (atPage u.1 u.2) w))
      else moreLoop rounds' (S round) u allShops w
  end.

(** [for (let pageIndex = currentPageIndex; pageIndex < districts.length; pageIndex++)]
    over the districts from [pageIndex] on.  The variable
    [currentPageIndex] is assigned in the body and is returned. *)
Fixpoint pageLoop (rest : list string) (regionIndex pageIndex cpi : nat)
    (allShops : list Shop) (w : World)
    : Completion unit * nat * list Shop * World :=
  match rest with
  | [] => (Normal tt, cpi, allShops, w)
  | district :: rest' =>
      let u := (regionIndex, pageIndex) in
      let w := arrive scraperId (stopAt u) (emit (UnitStart u) w) in
      if decide (getScraperStatus scraperId (w_status w) = stopped) then
        (Throw ScraperStoppedError, cpi, allShops,
         status (resetScraper scraperId) (save scraperId (atPage regionIndex pageIndex) w))
      else
        (* the [catch] of the [try] around one district *)
        let handler (error : JsError) (allShops : list Shop) (w : World) :=
          match error with
          | ScraperStoppedError => (Normal tt, cpi, allShops, w)            (* break *)
          | _ =>
              pageLoop rest' regionIndex (S pageIndex) cpi allShops
                (save scraperId (atPage regionIndex pageIndex) (emit (LogError u error) w))
          end in
        let w := emit (Fetch u) w in
        match search u with
        | SearchFailed e => handler e allShops w
        | NoResults e =>
            pageLoop rest' regionIndex (S pageIndex) cpi allShops (emit (LogError u e) w)
        | Results shops more =>
            let allShops := allShops ++ shops in
            match moreLoop more 0 u allShops (writeJson allShops w) with
            | (Normal _, allShops, w) =>
                pageLoop rest' regionIndex (S pageIndex) (pageIndex + 1) allShops
                  (save scraperId (atPage regionIndex (pageIndex + 1)) w)
            | (Throw e, allShops, w) => handler e allShops w
            end
        end
  end.

(** What follows the inner loop in the body of the outer one: the shops are
    made unique and written, and the next regions are done; a thrown error
    leaves the outer loop. *)
Definition afterRegion (next : nat -> list Shop -> World -> Completion unit * list Shop * World)
    (r : Completion unit * nat * list Shop * World) : Completion unit * list Shop * World :=
  match r with
  | (Normal _, cpi, allShops, w) => next cpi allShops (writeJson (uniqueShops allShops) w)
  | (Throw e, _, allShops, w) => (Throw e, allShops, w)
  end.

(** [for (let regionIndex = currentRegionIndex; regionIndex < regions.length; regionIndex++)] *)
Fixpoint regionLoop (rest : list Region) (regionIndex cpi : nat)
    (allShops : list Shop) (w : World) : Completion unit * list Shop * World :=
  match rest with
  | [] => (Normal tt, allShops, w)
  | region :: rest' =>
      afterRegion (regionLoop rest' (S regionIndex))
        (pageLoop (drop cpi (districts region)) regionIndex cpi cpi allShops w)
  end.

(** The end of the outer [try] block and its [catch]. *)
Definition finish (r : Completion unit * list Shop * World) : RunEnd * World :=
  match r with
  | (Normal _, _, w) => (Completed, status (resetScraper scraperId) w)
  | (Throw ScraperStoppedError, _, w) => (Halted, w)
  | (Throw e, _, w) => (Caught e, status (setScraperStatus scraperId stopped) w)
  end.

Definition scrapeFriendgolf (regions : list Region) (w : World) : RunEnd * World :=
  let w := status (setScraperStatus scraperId running) w in
  match readProgress scraperId JsUndefined (w_progress w) with
  | (Throw e, _) => (Rejected e, w)
  | (Normal value, store) =>
      let progress := fields value in
      let w := mkWorld store (w_status w) (w_output w) (w_events w) in
      let cri := match currentRegionIndex progress with Some i => i | None => 0 end in
      let cpi := match currentPageIndex progress with Some i => i | None => 0 end in
      finish (regionLoop (drop cri regions) cri cpi (loadAll w) w)
  end.



End Scraper.

(** No stop request is pending. *)
Definition calm (w : World) : Prop :=
  getScraperStatus scraperId (w_status w) ≠ stopped.


Definition startPage (w : World) : nat :=
  match w_progress w !! scraperId with
  | Some progress => match currentPageIndex progress with Some i => i | None => 0 end
  | None => 0
  end.

End FriendGolf.

(** ** citeezen.js: [scrapeCiteezen], one unit per listing page *)

Module Citeezen.

Definition scraperName : string := "citeezon".
Definition MAX_PAGE : nat := 100.

Record Store : Type := mkStore {
  storeName : string;      (* 상호명 *)
  address : string;        (* 주소 *)
  tel : string;
  link : string
}.

Abbreviation World := (Env.World nat Store).

(** What [page.goto] and [page.$$eval] give for a page. *)
Inductive Page : Type :=
| PageFailed (e : JsError)
| Stores (stores : list Store).

Definition atPage (pageNum : nat) : ProgressRecord :=
  mkProgress None None None None None (Some pageNum) None None.

(** [stores.forEach(store => { if (!allStores.some(e => e.link === store.link)) allStores.push(store) })] *)
Definition addStores (allStores stores : list Store) : list Store :=
  fold_left (fun allStores store =>
               if existsb (fun existingStore => String.eqb (link existingStore) (link store)) allStores
               then allStores
               else allStores ++ [store]) stores allStores.

Section Scraper.

(** [stopSignal] is the first argument of [scrapeCiteezen], called once at the
    top of every iteration; here it is indexed by the page it is called for. *)
Variable page : nat -> Page.
Variable stopSignal : nat -> bool.

(** [for (let pageNum = currentPage; pageNum <= 100; pageNum++)], with
    [fuel] the number of pages from [pageNum] to 100. *)
Fixpoint loop (fuel pageNum : nat) (allStores : list Store) (w : World) : RunEnd * World :=
  match fuel with
  | 0 => (Completed, w)
  | S fuel' =>
      if stopSignal pageNum then (Halted, save scraperName (atPage pageNum) w)   (* return *)
      else
        let w := emit (Fetch pageNum) (emit (UnitStart pageNum) w) in
        match page pageNum with
        | Stores [] => (Completed, w)                                            (* break *)
        | Stores stores =>
            let allStores := addStores allStores stores in
            loop fuel' (S pageNum) allStores
              (save scraperName (atPage (pageNum + 1)) (writeJson allStores w))
        | PageFailed e =>
            loop fuel' (S pageNum) allStores
              (save scraperName (atPage (pageNum + 1)) (emit (LogError pageNum e) w))
        end
  end.

Definition scrapeCiteezen (chromium : bool) (w : World) : RunEnd * World :=
  match readProgress scraperName JsUndefined (w_progress w) with
  | (Throw e, _) => (Rejected e, w)
  | (Normal value, store) =>
      let progress := fields value in
      let w := mkWorld store (w_status w) (w_output w) (w_events w) in
      let start := match currentPage progress with
                   | Some 0 | None => 1          (* if (!currentPage) currentPage = 1 *)
                   | Some p => p
                   end in
      if chromium then loop (MAX_PAGE + 1 - start) start (loadAll w) w
      else (Rejected (Error "Chromium executable not found"), w)
  end.

End Scraper.

(** The page at which a run that starts in [w] begins. *)
Definition startPage (w : World) : nat :=
  match w_progress w !! scraperName with
  | Some progress =>
      match currentPage progress with
      | Some 0 | None => 1
      | Some p => p
      end
  | None => 1
  end.

End Citeezen.

(** ** fieldzone.js: [scrapeFieldzone], one unit per listing page *)

Module Fieldzone.

Definition scraperId : string := "fieldzone".
Definition MAX_PAGE : nat := 100.

Record Store : Type := mkStore {
  number : string;
  storeName : string;
  tel : string;
  address : string;
  detail : string;
  device : option string
}.

Abbreviation World := (Env.World nat Store).

(** What the page gives: an error of [goto], [waitForSelector] or [$$eval],
    or the stores and whether the link to the next page is there. *)
Inductive Page : Type :=
| PageFailed (e : JsError)
| Stores (stores : list Store) (hasNextPage : bool).

Definition atPage (pageNum : nat) : ProgressRecord :=
  mkProgress None None None None None (Some pageNum) None None.

Section Scraper.

Variable page : nat -> Page.
Variable stopAt : nat -> bool.
(** [stopAtStore p i]: a stop request arrived before task [i] of page [p] polls. *)
Variable stopAtStore : nat -> nat -> bool.

(** The tasks [limit(() => processStore(store))] of one page.  Each task polls
    and pushes before its first [await], and the tasks reach that point in
    index order, so they are run here one after the other.  Once a task
    throws, the status stays [stopped]: every later task would save the same
    record and throw as well. *)
Fixpoint processStores (stores : list Store) (index pageNum : nat)
    (allStores : list Store) (w : World) : Completion unit * list Store * World :=
  match stores with
  | [] => (Normal tt, allStores, w)
  | store :: stores' =>
      let w := arrive scraperId (stopAtStore pageNum index) w in
      if decide (getScraperStatus scraperId (w_status w) = stopped) then
        (Throw ScraperStoppedError, allStores, save scraperId (atPage pageNum) w)
      else
        let allStores := allStores ++ [store] in
        processStores stores' (S index) pageNum allStores (writeJson allStores w)
  end.

(** [for (let pageNum = currentPage; pageNum <= MAX_PAGE; pageNum++)]; a
    [Throw] goes to the outer [catch], [Normal] is the end of the loop. *)
Fixpoint loop (fuel pageNum : nat) (progress : ProgressRecord)
    (allStores : list Store) (w : World) : Completion unit * World :=
  match fuel with
  | 0 => (Normal tt, w)
  | S fuel' =>
      let w := arrive scraperId (stopAt pageNum) (emit (UnitStart pageNum) w) in
      if decide (getScraperStatus scraperId (w_status w) = stopped) then
        (Throw ScraperStoppedError, save scraperId (atPage pageNum) w)
      else
        (* the [catch] of the [try] around one page *)
        let handler (error : JsError) (w : World) : Completion unit * World :=
          match error with
          | ScraperStoppedError => (Normal tt, w)                    (* break *)
          | _ => (Throw error, emit (LogError pageNum error) w)      (* throw error *)
          end in
        let w := emit (Fetch pageNum) w in
        match page pageNum with
        | PageFailed e => handler e w
        | Stores [] _ => (Normal tt, w)                 (* break *)
        | Stores stores hasNextPage =>
            match processStores stores 0 pageNum allStores w with
            | (Normal _, allStores, w) =>
                let progress := set_currentPage (pageNum + 1) progress in
                let w := save scraperId progress w in
                if hasNextPage then loop fuel' (S pageNum) progress allStores w
                else (Normal tt, w)                     (* break *)
            | (Throw e, _, w) => handler e w
            end
        end
  end.

(** After the loop, and the outer [catch], whose call of the undeclared
    [ogError] throws in turn. *)
Definition finish (r : Completion unit * World) : RunEnd * World :=
  match r with
  | (Normal _, w) =>
      if decide (getScraperStatus scraperId (w_status w) = stopped) then (Halted, w)
      else (Completed, status (resetScraper scraperId) w)
  | (Throw _, w) => (Rejected (ReferenceError "ogError"), w)
  end.

Definition scrapeFieldzone (pLimit : option JsError) (w : World) : RunEnd * World :=
  let w := status (setScraperStatus scraperId running) w in
  match pLimit with
  | Some err => (Rejected err, status (setScraperStatus scraperId stopped) w)
  | None =>
      match readProgress scraperId JsUndefined (w_progress w) with
      | (Throw e, _) => (Rejected e, w)
      | (Normal value, store) =>
          let progress := fields value in
          let w := mkWorld store (w_status w) (w_output w) (w_events w) in
          let start := match currentPage progress with
                       | Some 0 | None => 1
                       | Some p => p
                       end in
          finish (loop (MAX_PAGE + 1 - start) start progress (loadAll w) w)
      end
  end.

End Scraper.

End Fieldzone.

(** ** okongolf.js: [scrapeOkongolf], one unit per listing page *)

Module Okongolf.

Definition scraperId : string := "okongolf_store".
Definition MAX_PAGE : nat := 2.

(** A table row as [page.$$eval] returns it; [imgSrc] is [None] when the
    image has no [src] attribute. *)
Record Row : Type := mkRow {
  number : Z;
  storeName : string;
  phoneNumber : string;
  address : string;
  imgSrc : option string
}.

Record Store : Type := mkStore {
  s_number : Z;
  s_storeName : string;
  s_phoneNumber : option string;     (* [null] for ["-"] *)
  s_address : string;
  s_roomCount : option nat
}.

Abbreviation World := (Env.World nat Store).

(** What the site gives for a page, and with it what [fs.appendFile] gives
    for the error log while the page is handled: [appended] after a failed
    load or a missing table, and for the tasks of a page [Rows] when the
    log can be written, [RowsUnlogged] when the call throws. *)
Inductive Page : Type :=
| LoadFailed (e : JsError) (appended : Completion unit)      (* page.goto threw *)
| TableMissing (e : JsError) (appended : Completion unit)    (* waitForSelector threw *)
| EvalFailed (e : JsError)                                   (* page.$$eval threw *)
| Rows (rows : list Row)
| RowsUnlogged (rows : list Row) (e : JsError).

(** [String(number).replace(/\D/g, '')] tested against [/^\d+$/]. *)
Definition isValidNumber (number : Z) : bool :=
  let numberStr := pretty number in
  let cleanedNumber :=
    string_of_list_ascii (List.filter Phone.isDigit (list_ascii_of_string numberStr)) in
  Phone.test (Phone.Seq Phone.AssertStart (Phone.Seq (Phone.Plus Phone.Digit) Phone.AssertEnd))
    cleanedNumber.

Definition isValidStoreName (nameStr : string) : bool := 0 <? String.length nameStr.
Definition isValidAddress (addressStr : string) : bool := 0 <? String.length addressStr.

(** [{ currentPage: pageNum, processedIndexes }] *)
Definition atPage (pageNum : nat) (processedIndexes : gmap nat (list nat)) : ProgressRecord :=
  mkProgress None None None None None (Some pageNum) (Some processedIndexes) None.

(** The variables of [scrapeOkongolf] that the tasks of a page share. *)
Record Vars : Type := mkVars {
  isStopping : bool;
  v_processedIndexes : gmap nat (list nat);
  v_progress : ProgressRecord;
  allStores : list Store
}.

Section Scraper.

Variable page : nat -> Page.
Variable stopAt : nat -> bool.
Variable stopAtStore : nat -> nat -> bool.
(** [extractRoomCount], the number in the file name of the icon. *)
Variable extractRoomCount : string -> option nat.

(** [processStore(store, index)], with what [fs.appendFile] gives in its
    [catch].  Only the first task that reads [stopped] saves and throws: it
    sets [isStopping], and a task that finds the flag set goes on with its
    row whatever the status is. *)
Definition processStoreLogging (appended : Completion unit) (pageNum : nat) (store : Row)
    (storeIndex : nat) (v : Vars) (w : World) : Completion unit * Vars * World :=
  let w := arrive scraperId (stopAtStore pageNum storeIndex) w in
  if bool_decide (getScraperStatus scraperId (w_status w) = stopped) && negb (isStopping v) then
    (Throw ScraperStoppedError,
     mkVars true (v_processedIndexes v) (v_progress v) (allStores v),
     status (resetScraper scraperId)
       (save scraperId (atPage pageNum (v_processedIndexes v)) w))
  else
    let done := match v_processedIndexes v !! pageNum with
                | Some l => l
                | None => []
                end in
    if bool_decide (storeIndex ∈ done)     (* processedIndexes[pageNum].includes(storeIndex) *)
    then (Normal tt, v, w)
    else
      match imgSrc store with
      | None =>
          (* imgSrc.match throws; the [catch] of the task logs it, saves the
             record and appends to the error log *)
          let e := Error "Cannot read properties of null" in
          (appended, v,
           save scraperId (atPage pageNum (v_processedIndexes v))
             (emit (LogError pageNum e) w))
      | Some src =>
          let roomCount := extractRoomCount src in
          if negb (isValidNumber (number store)) || negb (isValidStoreName (storeName store))
             || negb (Phone.isValidPhoneNumber (phoneNumber store))
             || negb (isValidAddress (address store))
          then (Normal tt, v, w)
          else
            let detailedStore :=
              mkStore (number store) (storeName store)
                (if String.eqb (phoneNumber store) "-" then None else Some (phoneNumber store))
                (address store) roomCount in
            let allStores := allStores v ++ [detailedStore] in
            let processedIndexes := <[pageNum := done ++ [storeIndex]]> (v_processedIndexes v) in
            let progress :=
              set_processedIndexes processedIndexes (set_currentPage pageNum (v_progress v)) in
            (Normal tt, mkVars (isStopping v) processedIndexes progress allStores,
             save scraperId progress (writeJson allStores w))
      end.

Definition processStore : nat -> Row -> nat -> Vars -> World -> Completion unit * Vars * World :=
  processStoreLogging (Normal tt).

(** The tasks [limit(() => processStore(store, index))] of one page and
    [await Promise.all(tasks)].  p-limit starts the tasks in index order and
    each task polls, checks and pushes before its first [await], so the
    tasks are run here one after the other; a write that is issued later
    lands later.  [Promise.all] rejects with the first error thrown, but the
    other tasks are not cancelled: they run on while the rejection travels
    to the outer [catch].  The completion is that of [Promise.all]; the
    variables and the world are those left when every task has settled. *)
Fixpoint processStoresLogging (appended : Completion unit) (pageNum : nat) (rows : list Row)
    (index : nat) (v : Vars) (w : World) : Completion unit * Vars * World :=
  match rows with
  | [] => (Normal tt, v, w)
  | store :: rows' =>
      let '(first, v, w) := processStoreLogging appended pageNum store index v w in
      let '(rest, v, w) := processStoresLogging appended pageNum rows' (S index) v w in
      (match first with Normal _ => rest | Throw e => Throw e end, v, w)
  end.

Definition processStores : nat -> list Row -> nat -> Vars -> World
    -> Completion unit * Vars * World :=
  processStoresLogging (Normal tt).

(** [for (let pageNum = currentPage; pageNum <= MAX_PAGE; pageNum++)]; a
    [Throw] goes to the outer [catch].  The [catch] blocks around
    [page.goto] and [waitForSelector] append to the error log before they
    [continue]; [page.$$eval] stands in the outer [try] only. *)
Fixpoint loop (fuel pageNum : nat) (v : Vars) (w : World) : Completion unit * World :=
  match fuel with
  | 0 => (Normal tt, w)
  | S fuel' =>
      let w := arrive scraperId (stopAt pageNum) w in
      if bool_decide (getScraperStatus scraperId (w_status w) = stopped) && negb (isStopping v) then
        (Throw ScraperStoppedError,
         status (resetScraper scraperId)
           (save scraperId (atPage pageNum (v_processedIndexes v)) w))
      else
        let w := emit (Fetch pageNum) (emit (UnitStart pageNum) w) in
        (* after [await Promise.all(tasks)] *)
        let next (r : Completion unit * Vars * World) : Completion unit * World :=
          match r with
          | (Normal _, v, w) =>
              let progress :=
                set_processedIndexes (v_processedIndexes v)
                  (set_currentPage (pageNum + 1) (v_progress v)) in
              loop fuel' (S pageNum)
                (mkVars (isStopping v) (v_processedIndexes v) progress (allStores v))
                (save scraperId progress w)
          | (Throw e, _, w) => (Throw e, w)
          end in
        match page pageNum with
        | LoadFailed e appended | TableMissing e appended =>
            let w := emit (LogError pageNum e) w in
            match appended with
            | Normal _ => loop fuel' (S pageNum) v w                 (* continue *)
            | Throw e' => (Throw e', w)
            end
        | EvalFailed e => (Throw e, w)
        | Rows [] | RowsUnlogged [] _ => (Normal tt, w)               (* break *)
        | Rows rows => next (processStores pageNum rows 0 v w)
        | RowsUnlogged rows e' => next (processStoresLogging (Throw e') pageNum rows 0 v w)
        end
  end.

(** After the loop: PROGRESS_FILE, a file this program never writes, is
    unlinked if it exists, which changes nothing here; then [resetScraper].
    The outer [catch] formats [store.storeName] with no [store] in scope,
    whatever error reached it. *)
Definition finish (r : Completion unit * World) : RunEnd * World :=
  match r with
  | (Normal _, w) => (Completed, status (resetScraper scraperId) w)
  | (Throw _, w) => (Rejected (ReferenceError "store"), w)
  end.

Definition scrapeOkongolf (w : World) : RunEnd * World :=
  let w := status (setScraperStatus scraperId running) w in
  match readProgress scraperId JsUndefined (w_progress w) with
  | (Throw e, _) => (Rejected e, w)
  | (Normal value, store) =>
      let progress := fields value in
      let w := mkWorld store (w_status w) (w_output w) (w_events w) in
      let start := match currentPage progress with Some p => p | None => 1 end in
      let processedIndexes := match processedIndexes progress with Some m => m | None => ∅ end in
      finish (loop (MAX_PAGE + 1 - start) start
                (mkVars false processedIndexes progress (loadAll w)) w)
  end.

End Scraper.

(** The store holds a record for the job. *)
Definition kept (w : World) : Prop := is_Some (w_progress w !! scraperId).

End Okongolf.

(** * Sample inputs *)

(** The state of a process that has run no scraper yet. *)
Definition freshWorld {U R : Type} : Env.World U R := mkWorld ∅ ∅ None [].

(** The dashboard that asks to stop before the first poll. *)
Definition stopAtOnce {U : Type} : U -> bool := fun _ => true.

Definition kgolfShop (id shopName : string) : TheKgolf.Shop :=
  TheKgolf.mkShop (Some id) shopName.

(** Two pages of one valid row each for okongolf.js, and nothing after. *)
Definition okongolfPages (pageNum : nat) : Okongolf.Page :=
  match pageNum with
  | 1 => Okongolf.Rows [Okongolf.mkRow 1 "Alpha" "02-1234-5678" "Seoul" (Some "new_icon2_3.gif")]
  | 2 => Okongolf.Rows [Okongolf.mkRow 2 "Beta" "-" "Busan" (Some "new_icon2_5.gif")]
  | _ => Okongolf.Rows []
  end.

Definition okongolfRooms (src : string) : option nat :=
  if String.eqb src "new_icon2_3.gif" then Some 3
  else if String.eqb src "new_icon2_5.gif" then Some 5 else None.

(** A first page that cannot be loaded, before pages that can. *)
Definition fieldzonePages (pageNum : nat) : Fieldzone.Page :=
  match pageNum with
  | 1 => Fieldzone.PageFailed (Error "Navigation timeout")
  | _ => Fieldzone.Stores [Fieldzone.mkStore "7" "Gamma" "031-123-4567" "Suwon" "none" None] true
  end.







(** A fetch that fails until the counter reaches [n], and one that always
    fails. *)
Definition flaky_fetch (n : nat) (calls : nat) : Completion nat * nat :=
  if n <=? calls then (Normal calls, S calls) else (Throw (Error "timeout"), S calls).


(** * Further definitions *)

(** ** Counting what [retry] did *)

Module RetryLog.

(** The number of calls of [fn] and the delays, in order, in a log of [retry]. *)
Definition invocations (events : list Retry.Event) : nat :=
  length (List.filter (fun e => match e with Retry.Invoke _ => true | _ => false end) events).

Definition waits (events : list Retry.Event) : list nat :=
  omap (fun e => match e with Retry.Sleep ms => Some ms | _ => None end) events.

End RetryLog.

(** ** Digits in a string *)

(** The string has a character that [\d] matches. *)
Definition has_digit (s : string) : Prop :=
  existsb Phone.isDigit (list_ascii_of_string s) = true.

(** ** What the loops leave behind *)

(** The units a log says were fetched, in order. *)
Definition fetched {U : Type} (events : list (Event U)) : list U :=
  omap (fun e => match e with Fetch u => Some u | _ => None end) events.

Module OkongolfChecks.

(** A stored row that went through the checks of [processStore]: a name, an
    address, and a phone number that is [null] or passes the validator. *)
Definition validStore (s : Okongolf.Store) : Prop :=
  Okongolf.s_storeName s <> ""
  /\ Okongolf.s_address s <> ""
  /\ match Okongolf.s_phoneNumber s with
     | None => True
     | Some p => p <> "-" /\ Phone.isValidPhoneNumber p = true
     end.

(** The output file, if there is one, holds checked rows only. *)
Definition sinkValid (w : Okongolf.World) : Prop := Forall validStore (loadAll w).

(** No stop request is pending for okongolf.js. *)
Definition calm (w : Okongolf.World) : Prop :=
  getScraperStatus Okongolf.scraperId (w_status w) <> stopped.

(** The site and the error log work while the page is handled:
    [page.$$eval] returns and no [fs.appendFile] throws. *)
Definition reliable (pg : Okongolf.Page) : Prop :=
  match pg with
  | Okongolf.LoadFailed _ (Normal _) | Okongolf.TableMissing _ (Normal _)
  | Okongolf.Rows _ => True
  | _ => False
  end.

End OkongolfChecks.

(** A first page of two valid rows for okongolf.js, and nothing after. *)
Definition okongolfBusyPages (pageNum : nat) : Okongolf.Page :=
  match pageNum with
  | 1 => Okongolf.Rows
           [Okongolf.mkRow 1 "Alpha" "02-1234-5678" "Seoul" (Some "new_icon2_3.gif");
            Okongolf.mkRow 2 "Beta" "-" "Busan" (Some "new_icon2_5.gif")]
  | _ => Okongolf.Rows []
  end.

(** A first page that does not load, and a second with a row that has no
    image source and a row that has one. *)
Definition okongolfFlakyPages (pageNum : nat) : Okongolf.Page :=
  match pageNum with
  | 1 => Okongolf.LoadFailed (Error "net::ERR_CONNECTION_RESET") (Normal tt)
  | 2 => Okongolf.Rows
           [Okongolf.mkRow 1 "Alpha" "02-1234-5678" "Seoul" None;
            Okongolf.mkRow 2 "Beta" "-" "Busan" (Some "new_icon2_5.gif")]
  | _ => Okongolf.Rows []
  end.

(** ** citeezen.js: [removeDuplicates] *)

Module CiteezenDedup.

(** The loop of [removeDuplicates] over the stores that are left, with the
    [Set] of names seen so far; the result is what is pushed to
    [uniqueStores] from here on, in order. *)
Fixpoint removeDuplicates_from (storeNames : gset string) (stores : list Citeezen.Store)
    : list Citeezen.Store :=
  match stores with
  | [] => []
  | store :: rest =>
      if decide (Citeezen.storeName store ∈ storeNames)
      then removeDuplicates_from storeNames rest
      else store :: removeDuplicates_from ({[ Citeezen.storeName store ]} ∪ storeNames) rest
  end.

Definition removeDuplicates : list Citeezen.Store -> list Citeezen.Store :=
  removeDuplicates_from ∅.

End CiteezenDedup.

(** ** fieldzone.js: the registry during a run *)

Module FieldzoneChecks.

(** The job is registered as running or stopped. *)
Definition active (w : Fieldzone.World) : Prop :=
  getScraperStatus Fieldzone.scraperId (w_status w) <> idle.

End FieldzoneChecks.
(** * Properties *)

(** ** The checkpoint store *)

Section ProgressStoreFacts.

Implicit Types (store : gmap string ProgressRecord) (taskName : string).

Lemma Array_fill0_zeros (len : JsArg) (zeros : list nat) :
  Array_fill0 len = Normal zeros -> Forall (fun i => i = 0) zeros.
Proof.
  destruct len as [| |n]; simpl.
  - intros [= <-]. repeat constructor.
  - intros [= <-]. repeat constructor.
  - destruct (_ && _)%bool; [|discriminate].
    intros [= <-]. now apply Forall_replicate.
Qed.

(** What the lookup gives, case by case. *)
Lemma get_own taskName store (r : ProgressRecord) :
  taskName <> "__proto__" -> store !! taskName = Some r -> get store taskName = VRecord r.
Proof.
  intros Hne H. unfold get. apply String.eqb_neq in Hne. now rewrite Hne, H.
Qed.

Lemma inherited_not_proto taskName store :
  inherited store taskName = None -> taskName <> "__proto__".
Proof. intros H ->. discriminate. Qed.

Lemma get_nothing taskName store :
  store !! taskName = None -> inherited store taskName = None ->
  get store taskName = VUndefined.
Proof.
  intros H Hi. unfold get. rewrite H, Hi. now destruct (String.eqb _ _).
Qed.

Lemma field_plain (r : ProgressRecord) (name : string) :
  name ∉ fieldNames -> field r name = None.
Proof.
  intros H. unfold field.
  repeat match goal with
         | |- context [String.eqb name ?s] =>
             destruct (String.eqb_spec name s) as [->|?];
             [exfalso; apply H; unfold fieldNames; rewrite !elem_of_cons; tauto|]
         end.
  reflexivity.
Qed.

Lemma inherited_plain taskName store : plain taskName = true -> inherited store taskName = None.
Proof.
  unfold plain. rewrite !andb_true_iff, !negb_true_iff, !bool_decide_eq_false.
  intros [[Hp Hm] Hf]. unfold inherited. rewrite Hp.
  destruct (store !! "__proto__") as [proto|]; cbn [mbind option_bind];
    rewrite ?(field_plain _ _ Hf), (bool_decide_eq_false_2 _ Hm); reflexivity.
Qed.

Lemma readProgress_stored taskName totalRegions store (r : ProgressRecord) :
  store !! taskName = Some r ->
  readProgress taskName totalRegions store = (Normal (VRecord r), store).
Proof.
  intros H. assert (Hget : get store taskName = VRecord r).
  { unfold get, inherited. destruct (String.eqb taskName "__proto__") eqn:E.
    - apply String.eqb_eq in E. subst taskName. now rewrite H.
    - now rewrite H. }
  unfold readProgress. now rewrite Hget.
Qed.

Lemma readProgress_absent taskName totalRegions store zeros :
  store !! taskName = None ->
  inherited store taskName = None ->
  Array_fill0 totalRegions = Normal zeros ->
  readProgress taskName totalRegions store
  = (Normal (VRecord (defaultRecord zeros)), <[taskName := defaultRecord zeros]> store).
Proof.
  intros H Hi Hz. unfold readProgress.
  rewrite (get_nothing _ _ H Hi), Hz. cbn [truthy].
  rewrite (get_own taskName _ (defaultRecord zeros));
    [reflexivity | now apply (inherited_not_proto _ store) | apply lookup_insert_eq].
Qed.

(** For the ids of the jobs the lookup is a lookup among the own
    properties. *)
Lemma readProgress_plain taskName totalRegions store :
  plain taskName = true ->
  readProgress taskName totalRegions store
  = match store !! taskName with
    | Some r => (Normal (VRecord r), store)
    | None =>
        match Array_fill0 totalRegions with
        | Normal regions =>
            (Normal (VRecord (defaultRecord regions)), <[taskName := defaultRecord regions]> store)
        | Throw e => (Throw e, store)
        end
    end.
Proof.
  intros Hp. destruct (store !! taskName) as [r|] eqn:E.
  - now apply readProgress_stored.
  - pose proof (inherited_plain taskName store Hp) as Hi.
    destruct (Array_fill0 totalRegions) as [regions|e] eqn:Ez.
    + now apply readProgress_absent.
    + unfold readProgress. now rewrite (get_nothing _ _ E Hi), Ez.
Qed.

(** C9, as the code has it.  For a job id under which the lookup finds
    nothing, neither a stored record nor a property that the store object
    inherits, [readProgress] returns the default record:
    [lastProcessedRegionIndex] is 0, [regionsProgress] is an array of zeros
    (of the length asked for by that job's call, one zero when the argument
    is omitted), and no other field is set.  The length must be one [Array]
    accepts. *)
Theorem readProgress_default taskName totalRegions store zeros :
  store !! taskName = None ->
  inherited store taskName = None ->
  Array_fill0 totalRegions = Normal zeros ->
  exists r : ProgressRecord,
    (readProgress taskName totalRegions store).1 = Normal r
    /\ r = defaultRecord zeros
    /\ lastProcessedRegionIndex r = Some 0
    /\ regionsProgress r = Some zeros
    /\ Forall (fun i => i = 0) zeros.
Proof.
  intros Habsent Hplain Hlen. exists (defaultRecord zeros).
  rewrite (readProgress_absent _ _ _ _ Habsent Hplain Hlen). simpl.
  repeat split; eauto using Array_fill0_zeros.
Qed.

Lemma readProgress_default_witness :
  exists r : ProgressRecord,
    (readProgress "thekgolf" JsUndefined ∅).1 = Normal r
    /\ r = defaultRecord [0]
    /\ lastProcessedRegionIndex r = Some 0
    /\ regionsProgress r = Some [0]
    /\ Forall (fun i => i = 0) [0].
Proof. apply (readProgress_default "thekgolf" JsUndefined ∅ [0]); reflexivity. Defined.

(** C9 as stated fails for an id that names a member of [Object.prototype]:
    nothing is stored under ["constructor"], and the read returns the
    inherited function, which is no default record. *)
Lemma readProgress_constructor_is_inherited :
  let store : ProgressStore := ∅ in
  store !! "constructor" = None
  /\ readProgress "constructor" JsUndefined store = (Normal (VBuiltin "constructor"), store)
  /\ (forall zeros : list nat,
        (readProgress "constructor" JsUndefined store).1 <> Normal (VRecord (defaultRecord zeros))).
Proof.
  cbn zeta. split; [reflexivity|]. split; [reflexivity|].
  intros zeros. vm_compute. discriminate.
Qed.

(** C10, as the code has it.  Reading an id under which the lookup finds
    nothing stores the default record under exactly that id, leaves every
    other id as it was, changes the store, and from then on every read of
    the id returns that record and leaves the store alone, whatever its
    second argument. *)
Theorem readProgress_first_read_stores taskName totalRegions store zeros :
  store !! taskName = None ->
  inherited store taskName = None ->
  Array_fill0 totalRegions = Normal zeros ->
  let store' := (readProgress taskName totalRegions store).2 in
  store' !! taskName = Some (defaultRecord zeros)
  /\ (forall other : string, other ≠ taskName -> store' !! other = store !! other)
  /\ store' ≠ store
  /\ (forall totalRegions' : JsArg,
        readProgress taskName totalRegions' store'
        = (Normal (VRecord (defaultRecord zeros)), store')).
Proof.
  intros Habsent Hplain Hlen.
  rewrite (readProgress_absent _ _ _ _ Habsent Hplain Hlen). simpl.
  assert (Hin : <[taskName := defaultRecord zeros]> store !! taskName
                = Some (defaultRecord zeros)) by apply lookup_insert_eq.
  repeat split.
  - exact Hin.
  - intros other Hne. now apply lookup_insert_ne.
  - intros Heq. rewrite Heq in Hin. congruence.
  - intros totalRegions'. now apply readProgress_stored.
Qed.

Lemma readProgress_first_read_stores_witness :
  let store : gmap string ProgressRecord := {[ "citeezon" := emptyRecord ]} in
  let store' := (readProgress "thekgolf" JsObject store).2 in
  store' !! "thekgolf" = Some (defaultRecord [0])
  /\ (forall other : string, other ≠ "thekgolf" -> store' !! other = store !! other)
  /\ store' ≠ store
  /\ (forall totalRegions' : JsArg,
        readProgress "thekgolf" totalRegions' store'
        = (Normal (VRecord (defaultRecord [0])), store')).
Proof.
  apply (readProgress_first_read_stores "thekgolf" JsObject {[ "citeezon" := emptyRecord ]} [0]);
    reflexivity.
Defined.

(** C10 as stated fails for an id that names a member of [Object.prototype]:
    the first read of ["toString"] stores nothing, so the store is as it
    was, and the next read returns the inherited function again. *)
Lemma readProgress_toString_stores_nothing :
  let store : ProgressStore := {[ "citeezon" := emptyRecord ]} in
  let store' := (readProgress "toString" JsUndefined store).2 in
  store !! "toString" = None
  /\ store' = store
  /\ store' !! "toString" = None
  /\ readProgress "toString" JsObject store' = (Normal (VBuiltin "toString"), store').
Proof. cbn zeta. repeat split. Qed.

End ProgressStoreFacts.

(** ** The retry helper *)

Section RetryFacts.

Import Retry.
Context {W A : Type} (fn : W -> Completion A * W).

(** C5.  With the default limit: when the three attempts throw, [fn] is
    called three times, one second passes after the first and after the
    second call, and the third error is thrown; when attempt [k <= 3] is the
    first that returns, its value is returned after [k] calls with one second
    between them, and nothing but that call's own value is returned. *)
Theorem retry_default_policy (w : W) :
  (forall e1 e2 e3 : JsError,
     attempt_result fn 1 w = Throw e1 ->
     attempt_result fn 2 w = Throw e2 ->
     attempt_result fn 3 w = Throw e3 ->
     retry_default fn w
     = (Throw e3, world_after fn 3 w,
        [Invoke 1; LogWarn 1 3 e1; Sleep 1000;
         Invoke 2; LogWarn 2 3 e2; Sleep 1000; Invoke 3]))
  /\ (forall (k : nat) (a : A),
        1 <= k <= 3 ->
        (forall j : nat, 1 <= j < k -> exists e, attempt_result fn j w = Throw e) ->
        attempt_result fn k w = Normal a ->
        exists events : list Event,
          retry_default fn w = (Normal (Some a), world_after fn k w, events)
          /\ timeline events = attempts_one_second_apart k).
Proof.
  unfold retry_default, retry, attempt_result. split.
  - intros e1 e2 e3. simpl.
    destruct (fn w) as [c1 w1]. simpl. intros ->.
    destruct (fn w1) as [c2 w2]. simpl. intros ->.
    destruct (fn w2) as [c3 w3]. simpl. now intros ->.
  - intros k a Hk Hfail Hok.
    assert (H1 : k = 1 \/ k = 2 \/ k = 3) by lia.
    destruct H1 as [-> | [-> | ->]]; simpl in *.
    + destruct (fn w) as [c1 w1]. simpl in *. subst c1.
      eexists. split; reflexivity.
    + destruct (Hfail 1 ltac:(lia)) as [e1 He1]. simpl in He1.
      destruct (fn w) as [c1 w1]. simpl in *. subst c1.
      destruct (fn w1) as [c2 w2]. simpl in *. subst c2.
      eexists. split; reflexivity.
    + destruct (Hfail 1 ltac:(lia)) as [e1 He1].
      destruct (Hfail 2 ltac:(lia)) as [e2 He2]. simpl in He1, He2.
      destruct (fn w) as [c1 w1]. simpl in *. subst c1.
      destruct (fn w1) as [c2 w2]. simpl in *. subst c2.
      destruct (fn w2) as [c3 w3]. simpl in *. subst c3.
      eexists. split; reflexivity.
Qed.

End RetryFacts.

Lemma retry_default_policy_witness :
  Retry.retry_default (flaky_fetch 5) 0
  = (Throw (Error "timeout"), 3,
     [Retry.Invoke 1; Retry.LogWarn 1 3 (Error "timeout"); Retry.Sleep 1000;
      Retry.Invoke 2; Retry.LogWarn 2 3 (Error "timeout"); Retry.Sleep 1000;
      Retry.Invoke 3])
  /\ exists events : list Retry.Event,
       Retry.retry_default (flaky_fetch 1) 0 = (Normal (Some 1), 2, events)
       /\ Retry.timeline events = Retry.attempts_one_second_apart 2.
Proof.
  split.
  - apply (proj1 (retry_default_policy (flaky_fetch 5) 0)); reflexivity.
  - apply (proj2 (retry_default_policy (flaky_fetch 1) 0) 2 1).
    + lia.
    + intros j Hj. assert (j = 1) as -> by lia. now exists (Error "timeout").
    + reflexivity.
Defined.

(** ** The phone validator *)

Section PhoneFacts.

Import Phone.

Lemma charset_spec (member : ascii -> bool) (n : nat) (s : list ascii) (k : Continuation) :
  characterSetMatcher member (n, s) k = true
  <-> exists c s', s = c :: s' /\ member c = true /\ k (S n, s') = true.
Proof.
  simpl. destruct s as [|c s'].
  - split; [discriminate | intros (? & ? & [=] & _)].
  - destruct (member c) eqn:Hc.
    + split; [intros H; now exists c, s' | intros (? & ? & [= <- <-] & _ & H); exact H].
    + split; [discriminate | intros (? & ? & [= <- <-] & H & _); congruence].
Qed.

(** A bounded quantifier over a character class takes a prefix of the input
    whose length is within the bounds and whose characters are in the class. *)
Lemma repeat_spec (member : ascii -> bool) (max min n : nat) (s : list ascii) (k : Continuation) :
  min <= max ->
  repeatMatcher (characterSetMatcher member) min max (n, s) k = true
  <-> exists pre post,
        s = pre ++ post /\ min <= length pre <= max
        /\ forallb member pre = true /\ k (n + length pre, post) = true.
Proof.
  revert min n s. induction max as [|max IH]; intros min n s Hle.
  - assert (min = 0) as -> by lia. simpl. split.
    + intros H. exists [], s. simpl. rewrite Nat.add_0_r. repeat split; auto.
    + intros (pre & post & -> & Hlen & _ & H).
      destruct pre; [|simpl in Hlen; lia].
      simpl in H. now rewrite Nat.add_0_r in H.
  - destruct min as [|min]; cbn [repeatMatcher].
    + rewrite orb_true_iff, charset_spec. split.
      * intros [(c & s' & -> & Hc & H) | H].
        -- apply IH in H; [|lia].
           destruct H as (pre & post & -> & Hlen & Hall & H).
           exists (c :: pre), post. simpl. rewrite Hc, Hall.
           rewrite Nat.add_succ_r. repeat split; auto; lia.
        -- exists [], s. simpl. rewrite Nat.add_0_r. repeat split; auto; lia.
      * intros (pre & post & -> & Hlen & Hall & H). destruct pre as [|c pre].
        -- right. simpl in H. now rewrite Nat.add_0_r in H.
        -- left. simpl in Hall. apply andb_true_iff in Hall as [Hc Hall].
           exists c, (pre ++ post). repeat split; auto.
           apply IH; [lia|]. exists pre, post. simpl in Hlen, H.
           rewrite Nat.add_succ_r in H. repeat split; auto; lia.
    + rewrite charset_spec. split.
      * intros (c & s' & -> & Hc & H).
        apply IH in H; [|lia].
        destruct H as (pre & post & -> & Hlen & Hall & H).
        exists (c :: pre), post. simpl. rewrite Hc, Hall.
        rewrite Nat.add_succ_r. repeat split; auto; lia.
      * intros (pre & post & -> & Hlen & Hall & H). destruct pre as [|c pre].
        -- simpl in Hlen. lia.
        -- simpl in Hall. apply andb_true_iff in Hall as [Hc Hall].
           exists c, (pre ++ post). repeat split; auto.
           apply IH; [lia|]. exists pre, post. simpl in Hlen, H.
           rewrite Nat.add_succ_r in H. repeat split; auto; lia.
Qed.

(** A pattern that begins with [^] matches at index 0 only. *)
Lemma exec_from_anchored (r : Node) (n : nat) (s : list ascii) :
  exec_from (compile (Seq AssertStart r)) (S n) s = false.
Proof.
  revert n. induction s as [|c s IH]; intros n; simpl; [reflexivity|].
  apply IH.
Qed.

Lemma digits_forallb (lo hi : nat) (s : list ascii) :
  digits lo hi s <-> lo <= length s <= hi /\ forallb isDigit s = true.
Proof.
  unfold digits. rewrite forallb_forall, List.Forall_forall. reflexivity.
Qed.

Lemma test_phoneRegex (p : string) : test phoneRegex p = true <-> phone_pattern p.
Proof.
  unfold test, phone_pattern, phoneRegex.
  set (s := list_ascii_of_string p). clearbody s.
  match goal with |- exec_from ?m 0 s = true <-> _ =>
    transitivity (m (0, s) (fun _ => true) = true)
  end.
  { destruct s as [|c s]; cbn [exec_from].
    - now rewrite orb_false_r.
    - now rewrite exec_from_anchored, orb_false_r. }
  cbn [compile]. split.
  - intros H.
    apply repeat_spec in H as (a & s1 & -> & Ha & Hda & H); [|lia].
    apply charset_spec in H as (c1 & s2 & -> & Hc1 & H).
    apply repeat_spec in H as (b & s3 & -> & Hb & Hdb & H); [|lia].
    apply charset_spec in H as (c2 & s4 & -> & Hc2 & H).
    apply repeat_spec in H as (c & s5 & -> & Hc & Hdc & H); [|lia].
    apply Ascii.eqb_eq in Hc1, Hc2. subst c1 c2.
    destruct s5; [|discriminate].
    exists a, b, c. rewrite app_nil_r.
    split; [reflexivity|].
    rewrite !digits_forallb. auto.
  - intros (a & b & c & -> & Ha & Hb & Hc).
    apply digits_forallb in Ha as [Ha Hda], Hb as [Hb Hdb], Hc as [Hc Hdc].
    apply repeat_spec; [lia|]. exists a, (["-"%char] ++ b ++ ["-"%char] ++ c).
    repeat split; auto; try lia.
    apply charset_spec. exists "-"%char, (b ++ ["-"%char] ++ c). repeat split; auto.
    apply repeat_spec; [lia|]. exists b, (["-"%char] ++ c).
    repeat split; auto; try lia.
    apply charset_spec. exists "-"%char, c. repeat split; auto.
    apply repeat_spec; [lia|]. exists c, []. rewrite app_nil_r.
    repeat split; auto; lia.
Qed.

(** C8.  The validator accepts a string exactly when it has the form
    digits(2-3)-digits(3-4)-digits(4), or is ["-"], or is empty; it accepts
    ["02-1234-5678"], [""] and ["-"], and rejects ["02-12-5678"]. *)
Theorem isValidPhoneNumber_boundary :
  (forall p : string,
     isValidPhoneNumber p = true <-> phone_pattern p \/ p = "-" \/ p = "")
  /\ isValidPhoneNumber "02-1234-5678" = true
  /\ isValidPhoneNumber "02-12-5678" = false
  /\ isValidPhoneNumber "" = true
  /\ isValidPhoneNumber "-" = true.
Proof.
  split; [|repeat split; reflexivity].
  intros p. unfold isValidPhoneNumber.
  destruct (String.eqb p "-") eqn:E1; [apply String.eqb_eq in E1; tauto|].
  destruct (String.eqb p "") eqn:E2; [apply String.eqb_eq in E2; tauto|].
  apply String.eqb_neq in E1, E2. simpl. rewrite test_phoneRegex. tauto.
Qed.

End PhoneFacts.

(** ** Worlds *)

Section WorldFacts.

Context {U R : Type}.
Implicit Types (w : Env.World U R) (id : string).

Lemma readProgress_omitted id (store : gmap string ProgressRecord) :
  plain id = true ->
  exists r : ProgressRecord,
    readProgress id JsUndefined store = (Normal (VRecord r), <[id := r]> store)
    /\ r = match store !! id with Some r => r | None => defaultRecord [0] end.
Proof.
  intros Hp. rewrite (readProgress_plain _ _ _ Hp).
  destruct (store !! id) as [r|] eqn:E; simpl.
  - exists r. now rewrite insert_id.
  - now exists (defaultRecord [0]).
Qed.

Lemma status_idle_after_reset id w :
  getScraperStatus id (w_status (status (resetScraper id) w)) = idle.
Proof.
  unfold getScraperStatus, resetScraper, setScraperStatus. simpl.
  now rewrite lookup_insert_eq.
Qed.

Lemma arrive_false id w : arrive id false w = w.
Proof. reflexivity. Qed.

Lemma arrive_output id b w : w_output (arrive id b w) = w_output w.
Proof. now destruct b. Qed.

Lemma arrive_events id b w : w_events (arrive id b w) = w_events w.
Proof. now destruct b. Qed.

Lemma arrive_progress id b w : w_progress (arrive id b w) = w_progress w.
Proof. now destruct b. Qed.

End WorldFacts.

(** ** thekgolf.js *)

Section TheKgolfFacts.

Import TheKgolf.
Variable post : nat -> Response.




Lemma loop_stop (stopAt : nat -> bool) (shop : Shop) (rest : list Shop) (i : nat)
    (acc : list DetailedShop) (w : World) :
  getScraperStatus scraperId (w_status (arrive scraperId (stopAt i) w)) = stopped ->
  loop post stopAt (shop :: rest) i acc w
  = (Throw ScraperStoppedError,
     status (resetScraper scraperId)
       (save scraperId (atShop i) (arrive scraperId (stopAt i) (emit (UnitStart i) w)))).
Proof.
  intros Hs. cbn [loop].
  destruct (decide _) as [_|Hn]; [reflexivity|].
  elim Hn. now destruct (stopAt i).
Qed.

(** The prologue of [scrapeTheKgolf]: the status is set, the record is read
    (and stored when it was absent), the file is loaded. *)
Lemma scrapeTheKgolf_unfold (stopAt : nat -> bool) (shops : list Shop) (w : World) :
  exists w2 : World,
    scrapeTheKgolf post stopAt (Readable shops) w
    = finish (loop post stopAt (drop (startIndex w) shops) (startIndex w) (loadAll w) w2)
    /\ calm w2 /\ loadAll w2 = loadAll w /\ w_events w2 = w_events w
    /\ startIndex w2 = startIndex w.
Proof.
  unfold scrapeTheKgolf, startIndex. rewrite readProgress_plain by reflexivity.
  cbn [w_progress status].
  destruct (w_progress w !! scraperId) as [r|] eqn:E; cbn [Array_fill0 fields];
    (eexists; split; [reflexivity|]; split; [|split; [|split]]; try reflexivity;
     [ unfold calm; cbn [w_status status];
       unfold getScraperStatus, setScraperStatus; rewrite lookup_insert_eq; discriminate
     | cbn [w_progress]; now rewrite ?lookup_insert_eq, ?E ]).
Qed.



End TheKgolfFacts.

(** ** Cancellation *)

Section Cancellation.

Lemma pageLoop_stop (search : nat * nat -> FriendGolf.Search) (stopAt : nat * nat -> bool)
    (stopInner : nat * nat -> nat -> bool) (district : string) (rest : list string)
    (regionIndex pageIndex cpi : nat) (allShops : list FriendGolf.Shop)
    (w : FriendGolf.World) :
  let u := (regionIndex, pageIndex) in
  getScraperStatus FriendGolf.scraperId
    (w_status (arrive FriendGolf.scraperId (stopAt u) w)) = stopped ->
  FriendGolf.pageLoop search stopAt stopInner (district :: rest) regionIndex pageIndex cpi
    allShops w
  = (Throw ScraperStoppedError, cpi, allShops,
     status (resetScraper FriendGolf.scraperId)
       (save FriendGolf.scraperId (FriendGolf.atPage regionIndex pageIndex)
          (arrive FriendGolf.scraperId (stopAt u) (emit (UnitStart u) w)))).
Proof.
  intros u Hs. cbn [FriendGolf.pageLoop]. fold u.
  destruct (decide _) as [_|Hn]; [reflexivity|].
  elim Hn. now destruct (stopAt u).
Qed.

(** C3.  When the registry reads [stopped] at the start of a unit, the rest
    of the run is: the record is saved at that unit, the status is set to
    [idle], and the function ends; no request is made for that unit, no
    later unit is entered, the file is left as it is and the record stays in
    the store.  thekgolf.js is the first part, friendgolf.js the second. *)
Theorem stop_request_postcondition :
  (forall (post : nat -> TheKgolf.Response) (stopAt : nat -> bool)
          (shop : TheKgolf.Shop) (rest : list TheKgolf.Shop) (shopIndex : nat)
          (detailedShops : list TheKgolf.DetailedShop) (w : TheKgolf.World),
     getScraperStatus TheKgolf.scraperId
       (w_status (arrive TheKgolf.scraperId (stopAt shopIndex) w)) = stopped ->
     exists w' : TheKgolf.World,
       TheKgolf.finish (TheKgolf.loop post stopAt (shop :: rest) shopIndex detailedShops w)
       = (Halted, w')
       /\ w_progress w' !! TheKgolf.scraperId = Some (TheKgolf.atShop shopIndex)
       /\ TheKgolf.startIndex w' = shopIndex
       /\ getScraperStatus TheKgolf.scraperId (w_status w') = idle
       /\ w_events w' = w_events w ++ [UnitStart shopIndex]
       /\ w_output w' = w_output w)
  /\ (forall (search : nat * nat -> FriendGolf.Search) (stopAt : nat * nat -> bool)
            (stopInner : nat * nat -> nat -> bool)
            (district : string) (districts : list string) (regions : list FriendGolf.Region)
            (regionIndex pageIndex cpi : nat) (allShops : list FriendGolf.Shop)
            (w : FriendGolf.World),
        getScraperStatus FriendGolf.scraperId
          (w_status (arrive FriendGolf.scraperId (stopAt (regionIndex, pageIndex)) w))
        = stopped ->
        exists w' : FriendGolf.World,
          FriendGolf.finish
            (FriendGolf.afterRegion
               (FriendGolf.regionLoop search stopAt stopInner regions (S regionIndex))
               (FriendGolf.pageLoop search stopAt stopInner (district :: districts)
                  regionIndex pageIndex cpi allShops w))
          = (Halted, w')
          /\ w_progress w' !! FriendGolf.scraperId
             = Some (FriendGolf.atPage regionIndex pageIndex)
          /\ getScraperStatus FriendGolf.scraperId (w_status w') = idle
          /\ w_events w' = w_events w ++ [UnitStart (regionIndex, pageIndex)]
          /\ w_output w' = w_output w).
Proof.
  split.
  - intros post stopAt shop rest i acc w Hs.
    rewrite (loop_stop post stopAt shop rest i acc w Hs). cbn [TheKgolf.finish].
    eexists. split; [reflexivity|].
    assert (Hp : forall w0 : TheKgolf.World,
               w_progress (status (resetScraper TheKgolf.scraperId)
                             (save TheKgolf.scraperId (TheKgolf.atShop i) w0))
               !! TheKgolf.scraperId = Some (TheKgolf.atShop i))
      by (intros w0; apply lookup_insert_eq).
    repeat split.
    + apply Hp.
    + unfold TheKgolf.startIndex. now rewrite Hp.
    + apply status_idle_after_reset.
    + cbn [w_events status save]. now rewrite arrive_events.
    + cbn [w_output status save]. now rewrite arrive_output.
  - intros search stopAt stopInner district districts regions r p cpi allShops w Hs.
    rewrite (pageLoop_stop search stopAt stopInner district districts r p cpi allShops w Hs).
    cbn [FriendGolf.afterRegion FriendGolf.finish].
    eexists. split; [reflexivity|]. repeat split.
    + apply lookup_insert_eq.
    + apply status_idle_after_reset.
    + cbn [w_events status save]. now rewrite arrive_events.
    + cbn [w_output status save]. now rewrite arrive_output.
Qed.

Lemma stop_request_postcondition_witness :
  (exists w' : TheKgolf.World,
     TheKgolf.finish
       (TheKgolf.loop (fun _ => TheKgolf.NoDetail) stopAtOnce
          [kgolfShop "17" "A"; kgolfShop "18" "B"] 0 [] freshWorld)
     = (Halted, w')
     /\ w_progress w' !! TheKgolf.scraperId = Some (TheKgolf.atShop 0)
     /\ TheKgolf.startIndex w' = 0
     /\ getScraperStatus TheKgolf.scraperId (w_status w') = idle
     /\ w_events w' = w_events (freshWorld : TheKgolf.World) ++ [UnitStart 0]
     /\ w_output w' = w_output (freshWorld : TheKgolf.World))
  /\ (exists w' : FriendGolf.World,
        FriendGolf.finish
          (FriendGolf.afterRegion
             (FriendGolf.regionLoop (fun _ => FriendGolf.Results [] []) stopAtOnce
                (fun _ _ => false) [] 1)
             (FriendGolf.pageLoop (fun _ => FriendGolf.Results [] []) stopAtOnce
                (fun _ _ => false) ["Jongno-gu"; "Jung-gu"] 0 0 0 [] freshWorld))
        = (Halted, w')
        /\ w_progress w' !! FriendGolf.scraperId = Some (FriendGolf.atPage 0 0)
        /\ getScraperStatus FriendGolf.scraperId (w_status w') = idle
        /\ w_events w' = w_events (freshWorld : FriendGolf.World) ++ [UnitStart (0, 0)]
        /\ w_output w' = w_output (freshWorld : FriendGolf.World)).
Proof.
  split.
  - apply (proj1 stop_request_postcondition). reflexivity.
  - apply (proj2 stop_request_postcondition). reflexivity.
Defined.

End Cancellation.

(** ** The end of an enumeration *)

Section Termination.

(** C6.  A page that is fetched and yields no record ends the enumeration at
    once: the rest of the run enters no other page, logs no error, changes
    neither the record nor the file, and ends as a completed run.
    citeezen.js is the first part, okongolf.js the second. *)
Theorem zero_records_end_enumeration :
  (forall (page : nat -> Citeezen.Page) (stopSignal : nat -> bool) (fuel pageNum : nat)
          (allStores : list Citeezen.Store) (w : Citeezen.World),
     stopSignal pageNum = false ->
     page pageNum = Citeezen.Stores [] ->
     exists w' : Citeezen.World,
       Citeezen.loop page stopSignal (S fuel) pageNum allStores w = (Completed, w')
       /\ w_events w' = w_events w ++ [UnitStart pageNum; Fetch pageNum]
       /\ w_progress w' = w_progress w
       /\ w_output w' = w_output w)
  /\ (forall (page : nat -> Okongolf.Page) (stopAt : nat -> bool)
            (stopAtStore : nat -> nat -> bool) (extractRoomCount : string -> option nat)
            (fuel pageNum : nat) (v : Okongolf.Vars) (w : Okongolf.World),
        getScraperStatus Okongolf.scraperId
          (w_status (arrive Okongolf.scraperId (stopAt pageNum) w)) ≠ stopped ->
        page pageNum = Okongolf.Rows [] ->
        exists w' : Okongolf.World,
          Okongolf.finish
            (Okongolf.loop page stopAt stopAtStore extractRoomCount (S fuel) pageNum v w)
          = (Completed, w')
          /\ w_events w' = w_events w ++ [UnitStart pageNum; Fetch pageNum]
          /\ w_progress w' = w_progress w
          /\ w_output w' = w_output w
          /\ getScraperStatus Okongolf.scraperId (w_status w') = idle).
Proof.
  split.
  - intros page stopSignal fuel pageNum allStores w Hgo Hempty.
    cbn [Citeezen.loop]. rewrite Hgo, Hempty.
    eexists. split; [reflexivity|]. cbn [w_events w_progress w_output emit].
    rewrite <- app_assoc. auto.
  - intros page stopAt stopAtStore extractRoomCount fuel pageNum v w Hgo Hempty.
    cbn [Okongolf.loop]. rewrite Hempty.
    rewrite (bool_decide_eq_false_2 _ Hgo). cbn [andb Okongolf.finish].
    eexists. split; [reflexivity|].
    cbn [w_events w_progress w_output emit status].
    rewrite arrive_events, arrive_progress, arrive_output, <- app_assoc.
    repeat split. apply status_idle_after_reset.
Qed.

Lemma zero_records_end_enumeration_witness :
  (exists w' : Citeezen.World,
     Citeezen.loop (fun _ => Citeezen.Stores []) (fun _ => false) 100 1 [] freshWorld
     = (Completed, w')
     /\ w_events w' = w_events (freshWorld : Citeezen.World) ++ [UnitStart 1; Fetch 1]
     /\ w_progress w' = w_progress (freshWorld : Citeezen.World)
     /\ w_output w' = w_output (freshWorld : Citeezen.World))
  /\ (exists w' : Okongolf.World,
        Okongolf.finish
          (Okongolf.loop okongolfPages (fun _ => false) (fun _ _ => false) okongolfRooms
             1 3 (Okongolf.mkVars false ∅ emptyRecord []) freshWorld)
        = (Completed, w')
        /\ w_events w' = w_events (freshWorld : Okongolf.World) ++ [UnitStart 3; Fetch 3]
        /\ w_progress w' = w_progress (freshWorld : Okongolf.World)
        /\ w_output w' = w_output (freshWorld : Okongolf.World)
        /\ getScraperStatus Okongolf.scraperId (w_status w') = idle).
Proof.
  split.
  - apply (proj1 zero_records_end_enumeration); reflexivity.
  - apply (proj2 zero_records_end_enumeration); [discriminate | reflexivity].
Defined.

End Termination.

(** ** Completion *)

Section CompletionFacts.

Import Okongolf.
Variable page : nat -> Page.
Variables (stopAt : nat -> bool) (stopAtStore : nat -> nat -> bool).
Variable extractRoomCount : string -> option nat.

Lemma kept_save (r : ProgressRecord) (w : World) : kept (save scraperId r w).
Proof. unfold kept. cbn [w_progress save]. unfold saveProgress. now rewrite lookup_insert_eq. Qed.

Lemma kept_arrive (b : bool) (w : World) : kept w -> kept (arrive scraperId b w).
Proof. unfold kept. now rewrite arrive_progress. Qed.

Lemma processStoreLogging_kept (appended : Completion unit) (pageNum : nat) (store : Row)
    (index : nat) (v : Vars) (w : World) :
  kept w ->
  kept (processStoreLogging stopAtStore extractRoomCount appended pageNum store index v w).2.
Proof.
  intros Hk. unfold processStoreLogging.
  destruct (_ && _); [apply kept_save|].
  destruct (bool_decide _); [now apply kept_arrive|].
  destruct (imgSrc store); [|apply kept_save].
  destruct (_ || _); [now apply kept_arrive | apply kept_save].
Qed.

Lemma processStoresLogging_kept (appended : Completion unit) (pageNum : nat) (rows : list Row)
    (index : nat) (v : Vars) (w : World) :
  kept w ->
  kept (processStoresLogging stopAtStore extractRoomCount appended pageNum rows index v w).2.
Proof.
  revert index v w. induction rows as [|store rows IH]; intros index v w Hk; [exact Hk|].
  cbn [processStoresLogging].
  pose proof (processStoreLogging_kept appended pageNum store index v w Hk) as H1.
  destruct (processStoreLogging _ _ _ _ _ _ _ _) as [[first v1] w1]; cbn [snd] in H1.
  specialize (IH (S index) v1 w1 H1).
  destruct (processStoresLogging _ _ _ _ _ _ _ _) as [[rest v2] w2]. exact IH.
Qed.

Lemma loop_kept (fuel pageNum : nat) (v : Vars) (w : World) :
  kept w -> kept (loop page stopAt stopAtStore extractRoomCount fuel pageNum v w).2.
Proof.
  revert pageNum v w. induction fuel as [|fuel IH]; intros pageNum v w Hk; [exact Hk|].
  cbn [loop].
  destruct (_ && _); [apply kept_save|].
  assert (Hnext : forall r : Completion unit * Vars * World,
            kept r.2 ->
            kept (match r with
                  | (Normal _, v, w) =>
                      loop page stopAt stopAtStore extractRoomCount fuel (S pageNum)
                        (mkVars (isStopping v) (v_processedIndexes v)
                           (set_processedIndexes (v_processedIndexes v)
                              (set_currentPage (pageNum + 1) (v_progress v)))
                           (allStores v))
                        (save scraperId
                           (set_processedIndexes (v_processedIndexes v)
                              (set_currentPage (pageNum + 1) (v_progress v))) w)
                  | (Throw e, _, w) => (Throw e, w)
                  end).2).
  { intros [[[?|e] v1] w1] H1; cbn [snd] in *; [apply IH, kept_save | exact H1]. }
  destruct (page pageNum) as [e [?|e']|e [?|e']|e|[|row rows]|[|row rows] e'];
    try (apply IH); try (now apply kept_arrive).
  - apply Hnext. apply processStoresLogging_kept. now apply kept_arrive.
  - apply Hnext. apply processStoresLogging_kept. now apply kept_arrive.
Qed.

Lemma scrapeOkongolf_kept (w : World) :
  kept (scrapeOkongolf page stopAt stopAtStore extractRoomCount w).2.
Proof.
  unfold scrapeOkongolf.
  destruct (readProgress_omitted scraperId
              (w_progress (status (setScraperStatus scraperId running) w)) eq_refl)
    as (r & -> & _).
  match goal with |- context [loop _ _ _ _ ?f ?p ?v ?w0] =>
    pose proof (loop_kept f p v w0) as H1;
    destruct (loop page stopAt stopAtStore extractRoomCount f p v w0) as [[?|err] w1]
  end; cbn [snd finish] in *; apply H1; unfold kept; cbn [w_progress];
    now rewrite lookup_insert_eq.
Qed.

End CompletionFacts.

(** C7, where the code falls short of it.  On two pages of one valid row
    each, [scrapeOkongolf] runs to completion: the file holds the two stores
    and the status is [idle]; but the job's record is still in the store with
    [currentPage] 3, a read returns it and not the default, and the next run
    starts past the last page and enters no page.  No run of the function,
    whatever it meets, leaves the store without a record for the job. *)
Theorem okongolf_completion_keeps_record :
  let quiet : nat -> bool := fun _ => false in
  let run := Okongolf.scrapeOkongolf okongolfPages quiet (fun _ => quiet) okongolfRooms
               freshWorld in
  let again := Okongolf.scrapeOkongolf okongolfPages quiet (fun _ => quiet) okongolfRooms
                 run.2 in
  run.1 = Completed
  /\ getScraperStatus Okongolf.scraperId (w_status run.2) = idle
  /\ w_output run.2
     = Some [Okongolf.mkStore 1 "Alpha" (Some "02-1234-5678") "Seoul" (Some 3);
             Okongolf.mkStore 2 "Beta" None "Busan" (Some 5)]
  /\ (exists r : ProgressRecord,
        (readProgress Okongolf.scraperId JsUndefined (w_progress run.2)).1 = Normal r
        /\ currentPage r = Some 3
        /\ r ≠ defaultRecord [0])
  /\ again.1 = Completed
  /\ w_events again.2 = w_events run.2
  /\ (forall page stopAt stopAtStore extractRoomCount (w : Okongolf.World),
        is_Some (w_progress
                   (Okongolf.scrapeOkongolf page stopAt stopAtStore extractRoomCount w).2
                 !! Okongolf.scraperId)).
Proof.
  intros quiet run again.
  assert (Hrun : run = (Completed,
            mkWorld
              {[ Okongolf.scraperId :=
                   mkProgress (Some 0) (Some [0]) None None None (Some 3)
                     (Some (<[2 := [0]]> {[ 1 := [0] ]})) None ]}
              {[ Okongolf.scraperId := idle ]}
              (Some [Okongolf.mkStore 1 "Alpha" (Some "02-1234-5678") "Seoul" (Some 3);
                     Okongolf.mkStore 2 "Beta" None "Busan" (Some 5)])
              [UnitStart 1; Fetch 1; UnitStart 2; Fetch 2]))
    by (vm_compute; reflexivity).
  assert (Hagain : again = run) by (subst again; rewrite Hrun; vm_compute; reflexivity).
  rewrite Hagain, Hrun. cbn [fst snd w_status w_output w_progress w_events].
  split; [reflexivity|]. split; [reflexivity|]. split; [reflexivity|].
  split; [|split; [reflexivity|]; split; [reflexivity|]].
  - eexists. split; [reflexivity|]. split; [reflexivity | discriminate].
  - intros. apply scrapeOkongolf_kept.
Qed.

(** ** Failures of a unit *)

Section Containment.

(** The loop of thekgolf.js throws nothing but the stop error. *)
Lemma thekgolf_loop_throws_stop_only (post : nat -> TheKgolf.Response) (stopAt : nat -> bool)
    (rest : list TheKgolf.Shop) (i : nat) (acc : list TheKgolf.DetailedShop)
    (w : TheKgolf.World) :
  (exists acc', (TheKgolf.loop post stopAt rest i acc w).1 = Normal acc')
  \/ (TheKgolf.loop post stopAt rest i acc w).1 = Throw ScraperStoppedError.
Proof.
  revert i acc w. induction rest as [|shop rest IH]; intros i acc w.
  - left. now exists acc.
  - cbn [TheKgolf.loop]. destruct (decide _); [now right|].
    destruct (TheKgolf.shopId shop); [destruct (post i)|]; apply IH.
Qed.

Lemma scrapeTheKgolf_ends (post : nat -> TheKgolf.Response) (stopAt : nat -> bool)
    (shops : list TheKgolf.Shop) (w : TheKgolf.World) :
  let run := TheKgolf.scrapeTheKgolf post stopAt (TheKgolf.Readable shops) w in
  run.1 = Completed \/ run.1 = Halted.
Proof.
  destruct (scrapeTheKgolf_unfold post stopAt shops w) as (w2 & -> & _).
  match goal with |- context [TheKgolf.loop ?a ?b ?c ?d ?e ?f] =>
    destruct (thekgolf_loop_throws_stop_only a b c d e f) as [[acc' H]|H];
    destruct (TheKgolf.loop a b c d e f) as [c0 w3]
  end; cbn [fst] in H; subst c0; cbn; auto.
Qed.

(** C4, as the code has it.  A failure of a unit is logged where it
    happens.  In thekgolf.js it is handled there: the record is saved at the
    failed unit and the loop goes on with the next unit and the array as it
    was, and a run over a readable input file ends completed or halted
    whatever fails.  In fieldzone.js it is thrown on to the outer handler of
    the function: the page loop is left, so no later page is entered. *)
Theorem unit_failure_handling :
  (forall (post : nat -> TheKgolf.Response) (stopAt : nat -> bool)
          (shop : TheKgolf.Shop) (rest : list TheKgolf.Shop) (shopIndex : nat)
          (detailedShops : list TheKgolf.DetailedShop) (w : TheKgolf.World) (e : JsError),
     stopAt shopIndex = false ->
     TheKgolf.calm w ->
     TheKgolf.shopId shop ≠ None ->
     post shopIndex = TheKgolf.RequestFailed e ->
     exists w' : TheKgolf.World,
       TheKgolf.loop post stopAt (shop :: rest) shopIndex detailedShops w
       = TheKgolf.loop post stopAt rest (S shopIndex) detailedShops w'
       /\ w_events w' = w_events w ++ [UnitStart shopIndex; Fetch shopIndex; LogError shopIndex e]
       /\ w_progress w' !! TheKgolf.scraperId = Some (TheKgolf.atShop shopIndex)
       /\ w_output w' = w_output w
       /\ TheKgolf.calm w')
  /\ (forall (post : nat -> TheKgolf.Response) (stopAt : nat -> bool)
            (shops : list TheKgolf.Shop) (w : TheKgolf.World),
        let run := TheKgolf.scrapeTheKgolf post stopAt (TheKgolf.Readable shops) w in
        run.1 = Completed \/ run.1 = Halted)
  /\ (forall (page : nat -> Fieldzone.Page) (stopAt : nat -> bool)
            (stopAtStore : nat -> nat -> bool) (fuel pageNum : nat)
            (progress : ProgressRecord) (allStores : list Fieldzone.Store)
            (w : Fieldzone.World) (e : JsError),
        stopAt pageNum = false ->
        getScraperStatus Fieldzone.scraperId (w_status w) ≠ stopped ->
        page pageNum = Fieldzone.PageFailed e ->
        e ≠ ScraperStoppedError ->
        exists w' : Fieldzone.World,
          Fieldzone.loop page stopAt stopAtStore (S fuel) pageNum progress allStores w
          = (Throw e, w')
          /\ w_events w' = w_events w ++ [UnitStart pageNum; Fetch pageNum; LogError pageNum e]).
Proof.
  split; [|split].
  - intros post stopAt shop rest i acc w e Hgo Hcalm Hid Hfail.
    cbn [TheKgolf.loop]. rewrite Hgo, arrive_false.
    destruct (decide _) as [Hs|_]; [now elim Hcalm|].
    destruct (TheKgolf.shopId shop); [|congruence]. rewrite Hfail.
    eexists. split; [reflexivity|].
    cbn [w_events w_progress w_output save emit]. rewrite <- !app_assoc.
    repeat split; auto. apply lookup_insert_eq.
  - intros. apply scrapeTheKgolf_ends.
  - intros page stopAt stopAtStore fuel pageNum progress allStores w e Hgo Hcalm Hfail Hne.
    cbn [Fieldzone.loop]. rewrite Hgo, arrive_false.
    destruct (decide _) as [Hs|_]; [now elim Hcalm|].
    rewrite Hfail.
    destruct e; try congruence;
      (eexists; split; [reflexivity|]; cbn [w_events emit]; now rewrite <- !app_assoc).
Qed.

Lemma unit_failure_handling_witness :
  (exists w' : TheKgolf.World,
     TheKgolf.loop (fun _ => TheKgolf.RequestFailed (Error "socket hang up")) TheKgolf.never
       [kgolfShop "17" "A"; kgolfShop "18" "B"] 0 [] freshWorld
     = TheKgolf.loop (fun _ => TheKgolf.RequestFailed (Error "socket hang up")) TheKgolf.never
         [kgolfShop "18" "B"] 1 [] w'
     /\ w_events w'
        = w_events (freshWorld : TheKgolf.World)
          ++ [UnitStart 0; Fetch 0; LogError 0 (Error "socket hang up")]
     /\ w_progress w' !! TheKgolf.scraperId = Some (TheKgolf.atShop 0)
     /\ w_output w' = w_output (freshWorld : TheKgolf.World)
     /\ TheKgolf.calm w')
  /\ (exists w' : Fieldzone.World,
        Fieldzone.loop fieldzonePages (fun _ => false) (fun _ _ => false) 100 1
          emptyRecord [] freshWorld
        = (Throw (Error "Navigation timeout"), w')
        /\ w_events w'
           = w_events (freshWorld : Fieldzone.World)
             ++ [UnitStart 1; Fetch 1; LogError 1 (Error "Navigation timeout")]).
Proof.
  split.
  - apply (proj1 unit_failure_handling); try reflexivity; discriminate.
  - apply (proj2 (proj2 unit_failure_handling)); try reflexivity; discriminate.
Defined.

(** C4 as stated fails on fieldzone.js: the first page cannot be loaded, the
    second could; the run enters no second page and the promise of
    [scrapeFieldzone] is rejected. *)
Lemma fieldzone_page_failure_aborts_job :
  let run := Fieldzone.scrapeFieldzone fieldzonePages (fun _ => false) (fun _ _ => false)
               None freshWorld in
  fieldzonePages 1 = Fieldzone.PageFailed (Error "Navigation timeout")
  /\ w_events run.2 = [UnitStart 1; Fetch 1; LogError 1 (Error "Navigation timeout")]
  /\ (UnitStart 2 ∉ w_events run.2)
  /\ run.1 = Rejected (ReferenceError "ogError")
  /\ ~ (run.1 = Completed \/ run.1 = Halted).
Proof.
  repeat split; try reflexivity.
  - vm_compute w_events. rewrite !elem_of_cons, elem_of_nil. intuition discriminate.
  - vm_compute. intuition discriminate.
Qed.

End Containment.

(** ** The persisted position *)

Section NoSkip.















End NoSkip.

(** ** Resume after a stop *)

Section FriendGolfFacts.

Import FriendGolf.
Variable search : nat * nat -> Search.

(** The site never answers with the scraper's own stop error. *)
Hypothesis search_errors : forall u, search u <> SearchFailed ScraperStoppedError.







End FriendGolfFacts.

Section Resume.



End Resume.

(** * Further properties *)

(** ** The status registry *)

Section RegistryFacts.

Implicit Types (reg : gmap string Status) (id : string).

(** X1.  A status that was set is the status that is read, for that id only;
    an id that was never set reads [idle]. *)
Theorem registry_read_after_write reg id id' (s : Status) :
  getScraperStatus id' (setScraperStatus id s reg)
  = (if decide (id' = id) then s else getScraperStatus id' reg)
  /\ getScraperStatus id (∅ : gmap string Status) = idle.
Proof.
  unfold getScraperStatus, setScraperStatus. split; [|reflexivity].
  destruct (decide (id' = id)) as [->|Hne].
  - now rewrite lookup_insert_eq.
  - now rewrite lookup_insert_ne by congruence.
Qed.

Lemma start_erases_stop {U R : Type} id (w : Env.World U R) :
  status (setScraperStatus id running) (status (stopScraper id) w)
  = status (setScraperStatus id running) w.
Proof.
  unfold status, stopScraper, setScraperStatus. cbn [w_progress w_status w_output w_events].
  now rewrite insert_insert_eq.
Qed.

(** X2.  The registry keeps the last write only, so a stop request that
    arrives before a job starts is lost: thekgolf.js, friendgolf.js,
    okongolf.js and fieldzone.js set the status to [running] first and run
    exactly as if nothing had been requested. *)
Theorem stop_before_start_is_lost :
  (forall post stopAt input (w : TheKgolf.World),
     TheKgolf.scrapeTheKgolf post stopAt input (status (stopScraper TheKgolf.scraperId) w)
     = TheKgolf.scrapeTheKgolf post stopAt input w)
  /\ (forall search stopAt stopInner regions (w : FriendGolf.World),
        FriendGolf.scrapeFriendgolf search stopAt stopInner regions
          (status (stopScraper FriendGolf.scraperId) w)
        = FriendGolf.scrapeFriendgolf search stopAt stopInner regions w)
  /\ (forall page stopAt stopAtStore rooms (w : Okongolf.World),
        Okongolf.scrapeOkongolf page stopAt stopAtStore rooms
          (status (stopScraper Okongolf.scraperId) w)
        = Okongolf.scrapeOkongolf page stopAt stopAtStore rooms w)
  /\ (forall page stopAt stopAtStore pLimit (w : Fieldzone.World),
        Fieldzone.scrapeFieldzone page stopAt stopAtStore pLimit
          (status (stopScraper Fieldzone.scraperId) w)
        = Fieldzone.scrapeFieldzone page stopAt stopAtStore pLimit w).
Proof.
  repeat split; intros.
  - unfold TheKgolf.scrapeTheKgolf. now rewrite start_erases_stop.
  - unfold FriendGolf.scrapeFriendgolf. now rewrite start_erases_stop.
  - unfold Okongolf.scrapeOkongolf. now rewrite start_erases_stop.
  - unfold Fieldzone.scrapeFieldzone. now rewrite start_erases_stop.
Qed.

End RegistryFacts.

(** ** The checkpoint store, continued *)

Section StoreFacts.

Implicit Types (store : gmap string ProgressRecord) (taskName : string).

Lemma get_frame taskName other (progress : ProgressRecord) store :
  taskName <> "__proto__" -> other <> taskName ->
  get (<[taskName := progress]> store) other = get store other.
Proof.
  intros Hp Hne. unfold get, inherited.
  rewrite (lookup_insert_ne store taskName "__proto__") by exact Hp.
  rewrite (lookup_insert_ne store taskName other) by congruence.
  reflexivity.
Qed.

Lemma falsy_absent taskName store :
  truthy (get store taskName) = false ->
  taskName <> "__proto__" /\ store !! taskName = None.
Proof.
  unfold get, inherited. destruct (String.eqb_spec taskName "__proto__") as [->|Hne].
  - destruct (store !! "__proto__"); discriminate.
  - destruct (store !! taskName); [discriminate | now split].
Qed.

(** X3.  What [saveProgress] stores is what [readProgress] returns, whatever
    its second argument, and that read leaves the store as it is; a second
    save replaces the first.  Unless the id is ["__proto__"], a save changes
    no lookup under another id, so a read of another id gives what it gave,
    the save carried along. *)
Theorem save_then_read taskName (progress progress' : ProgressRecord) totalRegions store :
  let saved := saveProgress taskName progress store in
  readProgress taskName totalRegions saved = (Normal (VRecord progress), saved)
  /\ saveProgress taskName progress' saved = saveProgress taskName progress' store
  /\ (taskName <> "__proto__" ->
      forall other totalRegions', other <> taskName ->
        get saved other = get store other
        /\ readProgress other totalRegions' saved
           = ((readProgress other totalRegions' store).1,
              saveProgress taskName progress (readProgress other totalRegions' store).2)).
Proof.
  unfold saveProgress. cbn zeta. split; [|split].
  - apply readProgress_stored, lookup_insert_eq.
  - apply insert_insert_eq.
  - intros Hp other totalRegions' Hne.
    pose proof (get_frame taskName other progress store Hp Hne) as Hget.
    split; [exact Hget|]. unfold readProgress. rewrite Hget.
    destruct (truthy (get store other)) eqn:T; [reflexivity|].
    destruct (falsy_absent _ _ T) as [Hop _].
    destruct (Array_fill0 totalRegions') as [regions|e]; [|reflexivity]. cbn [fst snd].
    assert (Hown : forall st : ProgressStore,
              get (<[other := defaultRecord regions]> st) other
              = VRecord (defaultRecord regions))
      by (intros st; apply get_own; [exact Hop | apply lookup_insert_eq]).
    rewrite !Hown. f_equal. apply insert_insert_ne. congruence.
Qed.

Lemma save_then_read_witness :
  let store : ProgressStore := {[ "thekgolf" := TheKgolf.atShop 4 ]} in
  let saved := saveProgress "citeezon" (Citeezen.atPage 2) store in
  readProgress "citeezon" JsUndefined saved = (Normal (VRecord (Citeezen.atPage 2)), saved)
  /\ saveProgress "citeezon" (Citeezen.atPage 3) saved
     = saveProgress "citeezon" (Citeezen.atPage 3) store
  /\ get saved "thekgolf" = get store "thekgolf"
  /\ readProgress "thekgolf" JsUndefined saved
     = ((readProgress "thekgolf" JsUndefined store).1,
        saveProgress "citeezon" (Citeezen.atPage 2)
          (readProgress "thekgolf" JsUndefined store).2).
Proof.
  intros store saved.
  destruct (save_then_read "citeezon" (Citeezen.atPage 2) (Citeezen.atPage 3) JsUndefined store)
    as (H1 & H2 & H3).
  split; [exact H1|]. split; [exact H2|].
  apply H3; discriminate.
Defined.

(** A save under ["__proto__"] is seen by the lookups under other names: the
    saved record is the prototype, so its fields are inherited. *)
Lemma save_under_proto_is_inherited :
  let store := saveProgress "__proto__" (Citeezen.atPage 3) ∅ in
  get ∅ "currentPage" = VUndefined
  /\ get store "currentPage" = VNumber 3
  /\ readProgress "currentPage" JsUndefined store = (Normal (VNumber 3), store)
  /\ readProgress "__proto__" JsUndefined store = (Normal (VRecord (Citeezen.atPage 3)), store)
  /\ readProgress "citeezon" JsUndefined store
     = (Normal (VRecord (defaultRecord [0])), <["citeezon" := defaultRecord [0]]> store).
Proof. cbn zeta. repeat split. Qed.

(** X4.  For an id under which the lookup finds nothing, a numeric
    [totalRegions] that is no valid array length makes [readProgress] throw
    a [RangeError] and store nothing; for an id with a record the argument
    is never looked at. *)
Theorem readProgress_bad_length taskName (n : Z) store :
  (n < 0 \/ 2 ^ 32 <= n)%Z ->
  (store !! taskName = None -> inherited store taskName = None ->
   readProgress taskName (JsNumber n) store = (Throw RangeError, store))
  /\ (forall r : ProgressRecord, store !! taskName = Some r ->
        readProgress taskName (JsNumber n) store = (Normal (VRecord r), store)).
Proof.
  intros Hn. split.
  - intros Habsent Hplain. unfold readProgress.
    rewrite (get_nothing _ _ Habsent Hplain). cbn [truthy Array_fill0].
    destruct (0 <=? n)%Z eqn:E0; destruct (n <? 2 ^ 32)%Z eqn:E1; try reflexivity.
    apply Z.leb_le in E0. apply Z.ltb_lt in E1. lia.
  - intros r Hr. now apply readProgress_stored.
Qed.

Lemma readProgress_bad_length_witness :
  readProgress "thekgolf" (JsNumber (-1)) {[ "okongolf_store" := emptyRecord ]}
  = (Throw RangeError, {[ "okongolf_store" := emptyRecord ]})
  /\ readProgress "okongolf_store" (JsNumber (-1)) {[ "okongolf_store" := emptyRecord ]}
     = (Normal (VRecord emptyRecord), {[ "okongolf_store" := emptyRecord ]}).
Proof.
  split.
  - apply (proj1 (readProgress_bad_length "thekgolf" (-1) _ ltac:(lia))); reflexivity.
  - apply (proj2 (readProgress_bad_length "okongolf_store" (-1) _ ltac:(lia))). reflexivity.
Defined.

(** X5.  [readProgress] never changes or removes what the store holds: the
    store before is contained in the store after; and whatever value a read
    returns, a record or something inherited, the next read of the id
    returns the same value and leaves the store as it is. *)
Theorem readProgress_keeps_records taskName totalRegions store :
  store ⊆ (readProgress taskName totalRegions store).2
  /\ (forall v : Value, (readProgress taskName totalRegions store).1 = Normal v ->
        forall totalRegions' : JsArg,
          readProgress taskName totalRegions' (readProgress taskName totalRegions store).2
          = (Normal v, (readProgress taskName totalRegions store).2)).
Proof.
  unfold readProgress at 1 2 4 5. destruct (truthy (get store taskName)) eqn:T.
  - cbn [fst snd]. split; [reflexivity|]. intros v [= <-] totalRegions'.
    unfold readProgress. now rewrite T.
  - destruct (falsy_absent _ _ T) as [Hp Habsent].
    destruct (Array_fill0 totalRegions) as [zeros|e]; cbn [fst snd].
    + split; [now apply insert_subseteq|]. intros v [= <-] totalRegions'.
      rewrite (get_own taskName _ (defaultRecord zeros) Hp (lookup_insert_eq _ _ _)).
      apply readProgress_stored, lookup_insert_eq.
    + split; [reflexivity | discriminate].
Qed.

End StoreFacts.

(** ** The retry helper, for any limit *)

Section RetryGeneral.

Import Retry RetryLog.
Context {W A : Type} (fn : W -> Completion A * W).

Lemma world_after_shift (n : nat) (w : W) :
  world_after fn n (fn w).2 = world_after fn (S n) w.
Proof.
  induction n as [|n IH]; [reflexivity|].
  cbn [world_after]. rewrite IH. reflexivity.
Qed.

Lemma timeline_app (l1 l2 : list Event) : timeline (l1 ++ l2) = timeline l1 ++ timeline l2.
Proof. apply List.filter_app. Qed.

Lemma invocations_app (l1 l2 : list Event) :
  invocations (l1 ++ l2) = invocations l1 + invocations l2.
Proof. unfold invocations. now rewrite List.filter_app, length_app. Qed.

Lemma waits_app (l1 l2 : list Event) : waits (l1 ++ l2) = waits l1 ++ waits l2.
Proof. apply omap_app. Qed.

(** The loop from attempt [a] on, when the [r] attempts that remain all throw. *)
Lemma retry_from_all_throw (n r a : nat) (w : W) (events : list Event) :
  1 <= r -> a + r = n + 1 ->
  (forall j, j < r -> exists e, (fn (world_after fn j w)).1 = Throw e) ->
  exists (e : JsError) (new : list Event),
    retry_from fn n r a w events = (Throw e, world_after fn r w, events ++ new)
    /\ (fn (world_after fn (r - 1) w)).1 = Throw e
    /\ timeline new
       = flat_map (fun j => [Invoke j; Sleep 1000]) (seq a (r - 1)) ++ [Invoke (a + r - 1)].
Proof.
  revert a w events. induction r as [|r IH]; intros a w events Hr Han Hall; [lia|].
  cbn [retry_from]. destruct (Hall 0 ltac:(lia)) as [e0 He0]. cbn [world_after] in He0.
  destruct (fn w) as [c w1] eqn:Efn. cbn [fst] in He0. subst c.
  assert (Hw1 : w1 = (fn w).2) by now rewrite Efn.
  destruct (Nat.eqb_spec a n) as [Heq|Hne].
  - assert (r = 0) as -> by lia. exists e0, [Invoke a]. cbn [world_after].
    cbn. rewrite !Efn. cbn. replace (a + 1 - 1) with a by lia. auto.
  - destruct (IH (S a) w1
                (events ++ [Invoke a; LogWarn a n e0; Sleep 1000]) ltac:(lia) ltac:(lia))
      as (e & new & E & Hlast & Htl).
    { intros j Hj. destruct (Hall (S j) ltac:(lia)) as [e He]. exists e.
      rewrite Hw1, world_after_shift. exact He. }
    exists e, ([Invoke a; LogWarn a n e0; Sleep 1000] ++ new). rewrite E.
    rewrite Hw1 at 1. rewrite world_after_shift, <- app_assoc. split; [reflexivity|]. split.
    + rewrite Hw1, world_after_shift in Hlast.
      now replace (S (r - 1)) with (S r - 1) in Hlast by lia.
    + rewrite timeline_app, Htl. cbn [timeline List.filter app].
      replace (S r - 1) with (S (r - 1)) by lia. cbn [seq flat_map app].
      replace (S a + r - 1) with (a + S r - 1) by lia. reflexivity.
Qed.

(** X6.  For any limit [n >= 1]: when all [n] attempts throw, [fn] is called
    [n] times, one second apart, and the error of the last attempt is
    thrown. *)
Theorem retry_exhaustion (n : nat) (w : W) :
  1 <= n ->
  (forall k, 1 <= k <= n -> exists e, attempt_result fn k w = Throw e) ->
  exists (e : JsError) (events : list Event),
    retry fn n w = (Throw e, world_after fn n w, events)
    /\ attempt_result fn n w = Throw e
    /\ timeline events = attempts_one_second_apart n.
Proof.
  intros Hn Hall.
  destruct (retry_from_all_throw n n 1 w [] Hn ltac:(lia)) as (e & new & E & Hlast & Htl).
  { intros j Hj. destruct (Hall (S j) ltac:(lia)) as [e He]. exists e.
    unfold attempt_result in He. now replace (S j - 1) with j in He by lia. }
  exists e, new. unfold retry. rewrite E. repeat split; auto.
  rewrite Htl. unfold attempts_one_second_apart. now replace (1 + n - 1) with n by lia.
Qed.

(** The loop from attempt [a] on, when the first of the remaining attempts
    that returns is the one after [m] failures. *)
Lemma retry_from_first_return (n r a m : nat) (w : W) (events : list Event) (v : A) :
  m < r -> a + r = n + 1 ->
  (forall j, j < m -> exists e, (fn (world_after fn j w)).1 = Throw e) ->
  (fn (world_after fn m w)).1 = Normal v ->
  exists new : list Event,
    retry_from fn n r a w events = (Normal (Some v), world_after fn (S m) w, events ++ new)
    /\ timeline new
       = flat_map (fun j => [Invoke j; Sleep 1000]) (seq a m) ++ [Invoke (a + m)].
Proof.
  revert r a w events. induction m as [|m IH]; intros r a w events Hr Han Hfail Hok.
  - destruct r as [|r]; [lia|]. cbn [retry_from world_after] in *.
    destruct (fn w) as [c w1]. cbn [fst snd] in *. subst c.
    exists [Invoke a]. cbn. now rewrite Nat.add_0_r.
  - destruct r as [|r]; [lia|]. cbn [retry_from].
    destruct (Hfail 0 ltac:(lia)) as [e0 He0]. cbn [world_after] in He0.
    destruct (fn w) as [c w1] eqn:Efn. cbn [fst] in He0. subst c.
    destruct (Nat.eqb_spec a n) as [Heq|Hne]; [lia|].
    assert (Hw1 : w1 = (fn w).2) by now rewrite Efn.
    destruct (IH r (S a) w1 (events ++ [Invoke a; LogWarn a n e0; Sleep 1000])
                ltac:(lia) ltac:(lia)) as (new & E & Htl).
    { intros j Hj. destruct (Hfail (S j) ltac:(lia)) as [e He]. exists e.
      rewrite Hw1, world_after_shift. exact He. }
    { rewrite Hw1, world_after_shift. exact Hok. }
    exists ([Invoke a; LogWarn a n e0; Sleep 1000] ++ new). rewrite E.
    rewrite Hw1 at 1. rewrite world_after_shift, <- app_assoc. split; [reflexivity|].
    rewrite timeline_app, Htl. cbn [timeline List.filter app seq flat_map].
    now replace (S a + m) with (a + S m) by lia.
Qed.

(** X7.  For any limit [n]: when attempt [k <= n] is the first that returns,
    its value is returned after [k] calls, one second apart, and no call is
    made after it. *)
Theorem retry_first_return (n k : nat) (w : W) (v : A) :
  1 <= k <= n ->
  (forall j, 1 <= j < k -> exists e, attempt_result fn j w = Throw e) ->
  attempt_result fn k w = Normal v ->
  exists events : list Event,
    retry fn n w = (Normal (Some v), world_after fn k w, events)
    /\ timeline events = attempts_one_second_apart k.
Proof.
  intros Hk Hfail Hok. destruct k as [|m]; [lia|].
  destruct (retry_from_first_return n n 1 m w [] v ltac:(lia) ltac:(lia)) as (new & E & Htl).
  { intros j Hj. destruct (Hfail (S j) ltac:(lia)) as [e He]. exists e.
    unfold attempt_result in He. now replace (S j - 1) with j in He by lia. }
  { unfold attempt_result in Hok. now replace (S m - 1) with m in Hok by lia. }
  exists new. unfold retry. rewrite E. split; [reflexivity|].
  rewrite Htl. unfold attempts_one_second_apart. now replace (S m - 1) with m by lia.
Qed.

(** The loop never calls [fn] more often than iterations remain, and what
    it returns or throws is what the last call returned or threw. *)
Lemma retry_from_bound (n r a : nat) (w : W) (events : list Event) :
  a + r = n + 1 ->
  exists (m : nat) (new : list Event),
    (retry_from fn n r a w events).2 = events ++ new
    /\ (retry_from fn n r a w events).1.2 = world_after fn m w
    /\ m <= r /\ (1 <= r -> 1 <= m)
    /\ invocations new = m
    /\ waits new = replicate (m - 1) 1000
    /\ (r = 0 -> (retry_from fn n r a w events).1.1 = Normal None)
    /\ (1 <= r ->
        (retry_from fn n r a w events).1.1
        = match attempt_result fn m w with
          | Normal v => Normal (Some v)
          | Throw e => Throw e
          end).
Proof.
  revert a w events. induction r as [|r IH]; intros a w events Han.
  - exists 0, []. cbn. rewrite app_nil_r. repeat split; auto; lia.
  - cbn [retry_from]. destruct (fn w) as [[v|e] w1] eqn:Efn.
    + exists 1, [Invoke a]. unfold attempt_result. cbn. rewrite Efn.
      repeat split; auto; try lia; discriminate.
    + destruct (Nat.eqb_spec a n) as [Heq|Hne].
      * exists 1, [Invoke a]. unfold attempt_result. cbn. rewrite Efn.
        repeat split; auto; try lia; discriminate.
      * destruct (IH (S a) w1 (events ++ [Invoke a; LogWarn a n e; Sleep 1000]) ltac:(lia))
          as (m & new & Hev & Hw & Hm & Hm1 & Hinv & Hwaits & _ & Hres).
        specialize (Hm1 ltac:(lia)). specialize (Hres ltac:(lia)).
        exists (S m), ([Invoke a; LogWarn a n e; Sleep 1000] ++ new).
        rewrite Hev, Hw, <- app_assoc.
        assert (Hw1 : w1 = (fn w).2) by now rewrite Efn.
        rewrite Hw1, world_after_shift.
        split; [reflexivity|]. split; [reflexivity|]. split; [lia|]. split; [lia|].
        split; [|split; [|split]].
        -- rewrite invocations_app, Hinv. reflexivity.
        -- rewrite waits_app, Hwaits. cbn. destruct m; [lia|]. cbn.
           now rewrite Nat.sub_0_r.
        -- discriminate.
        -- intros _. rewrite <- Hw1, Hres. unfold attempt_result.
           rewrite Hw1, world_after_shift.
           replace (S (m - 1)) with (S m - 1) by lia. reflexivity.
Qed.

(** X8.  Whatever [fn] does, [retry] never calls it more than [retries]
    times and waits one second between two calls and nowhere else.  With
    [retries] at least 1 it calls [fn] at least once, and what it returns or
    throws is what the last call it made returned or threw; with [retries]
    0 it makes no call and falls off the loop. *)
Theorem retry_call_bound (n : nat) (w : W) :
  exists m : nat,
    m <= n
    /\ invocations (retry fn n w).2 = m
    /\ waits (retry fn n w).2 = replicate (m - 1) 1000
    /\ (retry fn n w).1.2 = world_after fn m w
    /\ (n = 0 -> m = 0 /\ (retry fn n w).1.1 = Normal None)
    /\ (1 <= n ->
        1 <= m
        /\ (retry fn n w).1.1
           = match attempt_result fn m w with
             | Normal v => Normal (Some v)
             | Throw e => Throw e
             end).
Proof.
  unfold retry.
  destruct (retry_from_bound n n 1 w [] ltac:(lia))
    as (m & new & Hev & Hw & Hm & Hm1 & Hinv & Hwaits & Hnone & Hres).
  cbn [app] in Hev. exists m. rewrite Hev.
  repeat split; auto; lia.
Qed.

End RetryGeneral.

Lemma retry_call_bound_witness :
  exists m : nat,
    m <= 3
    /\ RetryLog.invocations (Retry.retry (flaky_fetch 1) 3 0).2 = m
    /\ RetryLog.waits (Retry.retry (flaky_fetch 1) 3 0).2 = replicate (m - 1) 1000
    /\ (Retry.retry (flaky_fetch 1) 3 0).1.2 = Retry.world_after (flaky_fetch 1) m 0
    /\ (3 = 0 -> m = 0 /\ (Retry.retry (flaky_fetch 1) 3 0).1.1 = Normal None)
    /\ (1 <= 3 ->
        1 <= m
        /\ (Retry.retry (flaky_fetch 1) 3 0).1.1
           = match Retry.attempt_result (flaky_fetch 1) m 0 with
             | Normal v => Normal (Some v)
             | Throw e => Throw e
             end).
Proof. apply retry_call_bound. Defined.

Lemma retry_exhaustion_witness :
  exists (e : JsError) (events : list Retry.Event),
    Retry.retry (flaky_fetch 9) 4 0 = (Throw e, Retry.world_after (flaky_fetch 9) 4 0, events)
    /\ Retry.attempt_result (flaky_fetch 9) 4 0 = Throw e
    /\ Retry.timeline events = Retry.attempts_one_second_apart 4.
Proof.
  apply (retry_exhaustion (flaky_fetch 9) 4 0); [lia|].
  intros k Hk. exists (Error "timeout").
  assert (H : k = 1 \/ k = 2 \/ k = 3 \/ k = 4) by lia.
  destruct H as [->|[->|[->| ->]]]; reflexivity.
Defined.

Lemma retry_first_return_witness :
  exists events : list Retry.Event,
    Retry.retry (flaky_fetch 3) 5 0
    = (Normal (Some 3), Retry.world_after (flaky_fetch 3) 4 0, events)
    /\ Retry.timeline events = Retry.attempts_one_second_apart 4.
Proof.
  apply (retry_first_return (flaky_fetch 3) 5 4 0 3); [lia| |reflexivity].
  intros j Hj. exists (Error "timeout").
  assert (H : j = 1 \/ j = 2 \/ j = 3) by lia.
  destruct H as [->|[->| ->]]; reflexivity.
Defined.

(** ** The validators of okongolf.js *)

Section ValidatorFacts.

Import Phone.

Lemma length_list_ascii_of_string (s : string) :
  length (list_ascii_of_string s) = String.length s.
Proof. induction s as [|c s IH]; simpl; congruence. Qed.

Lemma digits_no_hyphen (l : list ascii) :
  Forall (fun c => isDigit c = true) l -> count_occ ascii_dec l "-"%char = 0.
Proof.
  induction 1 as [|c l Hc _ IH]; [reflexivity|].
  cbn [count_occ]. destruct (ascii_dec c "-") as [->|_]; [discriminate | exact IH].
Qed.

(** X9.  A phone number that the validator accepts is empty, or is ["-"],
    or has 11 to 13 characters, exactly two of them hyphens and all the
    others digits. *)
Theorem accepted_phone_shape (p : string) :
  isValidPhoneNumber p = true ->
  p = "" \/ p = "-"
  \/ (11 <= String.length p <= 13
      /\ count_occ ascii_dec (list_ascii_of_string p) "-"%char = 2
      /\ Forall (fun c => isDigit c = true \/ c = "-"%char) (list_ascii_of_string p)).
Proof.
  unfold isValidPhoneNumber.
  destruct (String.eqb_spec p "-") as [->|_]; [auto|].
  destruct (String.eqb_spec p "") as [->|_]; [auto|].
  cbn [orb]. intros H. apply test_phoneRegex in H.
  destruct H as (a & b & c & Hp & [Ha Hda] & [Hb Hdb] & [Hc Hdc]).
  right. right. rewrite <- length_list_ascii_of_string, Hp. split; [|split].
  - rewrite !length_app. simpl. lia.
  - rewrite !count_occ_app.
    rewrite (digits_no_hyphen a Hda), (digits_no_hyphen b Hdb), (digits_no_hyphen c Hdc).
    reflexivity.
  - assert (Hd : forall l, Forall (fun c => isDigit c = true) l ->
                 Forall (fun c => isDigit c = true \/ c = "-"%char) l).
    { intros l Hl. eapply List.Forall_impl; [|exact Hl]. intros; now left. }
    repeat (apply Forall_app; split); auto; (constructor; [now right | constructor]).
Qed.

Lemma accepted_phone_shape_witness :
  "031-123-4567" = "" \/ "031-123-4567" = "-"
  \/ (11 <= String.length "031-123-4567" <= 13
      /\ count_occ ascii_dec (list_ascii_of_string "031-123-4567") "-"%char = 2
      /\ Forall (fun c => Phone.isDigit c = true \/ c = "-"%char)
           (list_ascii_of_string "031-123-4567")).
Proof. apply accepted_phone_shape. reflexivity. Defined.

Lemma pretty_N_char_digit (x : N) : isDigit (pretty_N_char x) = true.
Proof. unfold pretty_N_char. repeat case_match; reflexivity. Qed.

Lemma pretty_N_go_has_digit (x : N) (s : string) :
  (0 < x)%N \/ has_digit s -> has_digit (pretty_N_go x s).
Proof.
  revert s. induction (N.lt_wf_0 x) as [x _ IH]; intros s H.
  assert (Hx : (x = 0 \/ 0 < x)%N) by lia. destruct Hx as [->|Hpos].
  - rewrite pretty_N_go_0. destruct H as [H|H]; [lia | exact H].
  - rewrite pretty_N_go_step by exact Hpos. apply IH.
    + now apply N.div_lt.
    + right. unfold has_digit. simpl. now rewrite pretty_N_char_digit.
Qed.

Lemma pretty_Z_has_digit (z : Z) : has_digit (pretty z).
Proof.
  destruct z as [|p|p]; [reflexivity| |].
  - change (has_digit (pretty (N.pos p))). unfold pretty, pretty_N.
    destruct (decide _); [reflexivity|]. apply pretty_N_go_has_digit. left. lia.
  - change (has_digit ("-" +:+ pretty (N.pos p))). unfold has_digit. simpl.
    change (has_digit (pretty (N.pos p))). unfold pretty, pretty_N.
    destruct (decide _); [reflexivity|]. apply pretty_N_go_has_digit. left. lia.
Qed.

(** [/^\d+$/] accepts a string of digits that is not empty. *)
Lemma digits_plus_accepts (s : list ascii) :
  s <> [] -> forallb isDigit s = true ->
  exec_from (compile (Seq AssertStart (Seq (Plus Digit) AssertEnd))) 0 s = true.
Proof.
  intros Hne Hall. destruct s as [|c s]; [congruence|].
  cbn [exec_from]. apply orb_true_iff. left.
  cbn [compile snd]. apply repeat_spec; [simpl; lia|].
  exists (c :: s), []. rewrite app_nil_r. repeat split; auto; simpl; lia.
Qed.

(** X10.  [isValidNumber] accepts every integer: the decimal form of an
    integer always has a digit, so what is left after the non-digits are
    removed is a non-empty run of digits. *)
Theorem isValidNumber_always (number : Z) : Okongolf.isValidNumber number = true.
Proof.
  unfold Okongolf.isValidNumber, test.
  rewrite list_ascii_of_string_of_list_ascii.
  pose proof (pretty_Z_has_digit number) as Hd. unfold has_digit in Hd.
  set (l := list_ascii_of_string (pretty number)) in *. clearbody l.
  apply digits_plus_accepts.
  - apply existsb_exists in Hd as (c & Hin & Hc).
    intros Hnil. assert (Hf : In c (List.filter isDigit l)) by (apply List.filter_In; auto).
    rewrite Hnil in Hf. destruct Hf.
  - apply forallb_forall. intros c Hin. now apply List.filter_In in Hin.
Qed.

End ValidatorFacts.

(** ** okongolf.js *)

Section OkongolfFacts.

Import Okongolf OkongolfChecks.
Variable page : nat -> Page.
Variables (stopAt : nat -> bool) (stopAtStore : nat -> nat -> bool).
Variable extractRoomCount : string -> option nat.

Lemma isValidStoreName_nonempty (s : string) : isValidStoreName s = true -> s <> "".
Proof. intros H ->. discriminate. Qed.

Lemma isValidAddress_nonempty (s : string) : isValidAddress s = true -> s <> "".
Proof. intros H ->. discriminate. Qed.

Lemma processStoreLogging_valid (appended : Completion unit) (pageNum : nat) (store : Row)
    (index : nat) (v : Vars) (w : World) :
  let r := processStoreLogging stopAtStore extractRoomCount appended pageNum store index v w in
  Forall validStore (allStores v) -> sinkValid w ->
  Forall validStore (allStores r.1.2) /\ sinkValid r.2.
Proof.
  cbn zeta. intros Hv Hs. unfold processStoreLogging, sinkValid, loadAll in *.
  destruct (_ && _); [cbn; now rewrite arrive_output|].
  destruct (bool_decide _); [cbn; now rewrite arrive_output|].
  destruct (imgSrc store) as [src|]; [|cbn; now rewrite arrive_output].
  destruct (negb (isValidNumber (number store)) || negb (isValidStoreName (storeName store))
            || negb (Phone.isValidPhoneNumber (phoneNumber store))
            || negb (isValidAddress (address store))) eqn:E;
    [cbn; now rewrite arrive_output|].
  apply orb_false_iff in E as [E Ha]. apply orb_false_iff in E as [E Hp].
  apply orb_false_iff in E as [_ Hn].
  apply negb_false_iff in Ha, Hp, Hn.
  assert (Hnew : Forall validStore
            (allStores v ++
             [mkStore (number store) (storeName store)
                (if String.eqb (phoneNumber store) "-" then None else Some (phoneNumber store))
                (address store) (extractRoomCount src)])).
  { apply Forall_app. split; [exact Hv|]. constructor; [|constructor].
    unfold validStore. cbn.
    split; [now apply isValidStoreName_nonempty|].
    split; [now apply isValidAddress_nonempty|].
    destruct (String.eqb_spec (phoneNumber store) "-"); [exact I | split; assumption]. }
  cbn. split; exact Hnew.
Qed.

Lemma processStoresLogging_valid (appended : Completion unit) (pageNum : nat) (rows : list Row)
    (index : nat) (v : Vars) (w : World) :
  let r := processStoresLogging stopAtStore extractRoomCount appended pageNum rows index v w in
  Forall validStore (allStores v) -> sinkValid w ->
  Forall validStore (allStores r.1.2) /\ sinkValid r.2.
Proof.
  cbn zeta. revert index v w.
  induction rows as [|store rows IH]; intros index v w Hv Hs; [now split|].
  cbn [processStoresLogging].
  pose proof (processStoreLogging_valid appended pageNum store index v w Hv Hs) as [H1 H2].
  destruct (processStoreLogging _ _ _ _ _ _ _ _) as [[first v1] w1]; cbn [fst snd] in *.
  specialize (IH (S index) v1 w1 H1 H2).
  destruct (processStoresLogging _ _ _ _ _ _ _ _) as [[rest v2] w2]. exact IH.
Qed.

Lemma loop_valid (fuel pageNum : nat) (v : Vars) (w : World) :
  Forall validStore (allStores v) -> sinkValid w ->
  sinkValid (loop page stopAt stopAtStore extractRoomCount fuel pageNum v w).2.
Proof.
  revert pageNum v w. induction fuel as [|fuel IH]; intros pageNum v w Hv Hs; [exact Hs|].
  cbn [loop].
  destruct (_ && _); [unfold sinkValid, loadAll in *; cbn; now rewrite arrive_output|].
  set (w1 := emit (Fetch pageNum)
               (emit (UnitStart pageNum) (arrive scraperId (stopAt pageNum) w))).
  assert (Hs1 : sinkValid w1)
    by (unfold sinkValid, loadAll in *; cbn; now rewrite arrive_output).
  assert (Hs2 : forall e, sinkValid (emit (LogError pageNum e) w1)) by (intros e; exact Hs1).
  assert (Hnext : forall (appended : Completion unit) (rows : list Row),
            sinkValid
              (match processStoresLogging stopAtStore extractRoomCount appended pageNum rows 0 v w1 with
               | (Normal _, v, w) =>
                   loop page stopAt stopAtStore extractRoomCount fuel (S pageNum)
                     (mkVars (isStopping v) (v_processedIndexes v)
                        (set_processedIndexes (v_processedIndexes v)
                           (set_currentPage (pageNum + 1) (v_progress v)))
                        (allStores v))
                     (save scraperId
                        (set_processedIndexes (v_processedIndexes v)
                           (set_currentPage (pageNum + 1) (v_progress v))) w)
               | (Throw e, _, w) => (Throw e, w)
               end).2).
  { intros appended rows.
    destruct (processStoresLogging_valid appended pageNum rows 0 v w1 Hv Hs1) as [H1 H2].
    destruct (processStoresLogging _ _ _ _ _ _ _ _) as [[[?|e] v2] w2]; cbn [fst snd] in *;
      [apply IH; [exact H1 | exact H2] | exact H2]. }
  destruct (page pageNum) as [e [?|e']|e [?|e']|e|[|row rows]|[|row rows] e'];
    try (apply IH; [exact Hv | apply Hs2]); try exact Hs1; try apply Hs2; apply Hnext.
Qed.

(** X11.  okongolf.js writes checked rows only: when the output file holds
    nothing but rows with a name, an address and a phone number that is
    [null] or valid, it still does after any run, whatever the pages give
    and whenever a stop request comes, the tasks that run on after a stop
    included. *)
Theorem okongolf_output_stays_valid (w : World) :
  sinkValid w ->
  sinkValid (scrapeOkongolf page stopAt stopAtStore extractRoomCount w).2.
Proof.
  intros Hs. unfold scrapeOkongolf.
  destruct (readProgress_omitted scraperId
              (w_progress (status (setScraperStatus scraperId running) w)) eq_refl) as (r & -> & _).
  match goal with |- context [loop _ _ _ _ ?f ?p ?v ?w0] =>
    pose proof (loop_valid f p v w0 Hs Hs) as H1;
    destruct (loop page stopAt stopAtStore extractRoomCount f p v w0) as [[?|err] w1]
  end; exact H1.
Qed.

(** X12.  A page whose rows are all recorded in [processedIndexes] adds
    nothing when it is met again: no store, no write, no change of the
    record. *)
Theorem okongolf_processed_page_is_skipped (pageNum : nat) (rows : list Row) (index : nat)
    (v : Vars) (w : World) :
  (forall i, stopAtStore pageNum i = false) ->
  calm w ->
  (forall i, index <= i < index + length rows ->
     exists done, v_processedIndexes v !! pageNum = Some done /\ i ∈ done) ->
  processStores stopAtStore extractRoomCount pageNum rows index v w = (Normal tt, v, w).
Proof.
  intros Hquiet Hcalm. unfold processStores. revert index.
  induction rows as [|store rows IH]; intros index Hdone; [reflexivity|].
  cbn [processStoresLogging].
  assert (Hone : processStoreLogging stopAtStore extractRoomCount (Normal tt) pageNum store
                   index v w = (Normal tt, v, w)).
  { unfold processStoreLogging. rewrite Hquiet, arrive_false.
    rewrite (bool_decide_eq_false_2 _ Hcalm). cbn [andb].
    destruct (Hdone index ltac:(simpl; lia)) as (done & -> & Hin).
    now rewrite (bool_decide_eq_true_2 _ Hin). }
  rewrite Hone, IH; [reflexivity|]. intros i Hi. apply Hdone. simpl. lia.
Qed.

(** X13.  A stop request read at the start of a page makes [scrapeOkongolf]
    save the record at that page with the indexes done so far and set the
    status to [idle]; it fetches nothing and leaves the file as it is.  The
    run then does not resolve: its outer [catch] throws a [ReferenceError],
    and the promise is rejected with it. *)
Theorem okongolf_stop_at_page_start (fuel pageNum : nat) (v : Vars) (w : World) :
  isStopping v = false ->
  getScraperStatus scraperId (w_status (arrive scraperId (stopAt pageNum) w)) = stopped ->
  exists w' : World,
    finish (loop page stopAt stopAtStore extractRoomCount (S fuel) pageNum v w)
    = (Rejected (ReferenceError "store"), w')
    /\ w_progress w' !! scraperId = Some (atPage pageNum (v_processedIndexes v))
    /\ getScraperStatus scraperId (w_status w') = idle
    /\ w_events w' = w_events w
    /\ w_output w' = w_output w.
Proof.
  intros Hflag Hstop. cbn [loop]. rewrite Hflag, (bool_decide_eq_true_2 _ Hstop).
  cbn [andb negb finish]. eexists. split; [reflexivity|].
  split; [apply lookup_insert_eq|]. split; [apply status_idle_after_reset|].
  cbn [w_events w_output status save]. now rewrite arrive_events, arrive_output.
Qed.

Lemma processStoresLogging_calm (pageNum : nat) (rows : list Row) (index : nat)
    (v : Vars) (w : World) :
  (forall p i, stopAtStore p i = false) -> calm w ->
  let r := processStoresLogging stopAtStore extractRoomCount (Normal tt) pageNum rows index v w in
  r.1.1 = Normal tt /\ calm r.2.
Proof.
  intros Hquiet. revert index v w.
  induction rows as [|store rows IH]; intros index v w Hcalm; [now split|].
  cbn zeta. cbn [processStoresLogging].
  assert (Hone : let r := processStoreLogging stopAtStore extractRoomCount (Normal tt) pageNum
                            store index v w in
                 r.1.1 = Normal tt /\ calm r.2).
  { cbn zeta. unfold processStoreLogging. rewrite Hquiet, arrive_false.
    rewrite (bool_decide_eq_false_2 _ Hcalm). cbn [andb].
    destruct (bool_decide _); [now split|].
    destruct (imgSrc store); [|now split]. destruct (_ || _); now split. }
  cbn zeta in Hone.
  destruct (processStoreLogging _ _ _ _ _ _ _ _) as [[first v1] w1]; cbn [fst snd] in *.
  destruct Hone as [-> Hcalm1]. specialize (IH (S index) v1 w1 Hcalm1). cbn zeta in IH.
  destruct (processStoresLogging _ _ _ _ _ _ _ _) as [[rest v2] w2]. exact IH.
Qed.

(** X14.  Without a stop request, and when [page.$$eval] and the appends to
    the error log do not throw, the page loop of [scrapeOkongolf] is never
    left by an error: pages that fail to load, tables that never appear,
    rows without an image source and rows that fail the checks are all
    passed over, and the loop ends at the first empty page or after the last
    page. *)
Theorem okongolf_loop_survives_failures (fuel pageNum : nat) (v : Vars) (w : World) :
  (forall p, stopAt p = false) -> (forall p i, stopAtStore p i = false) ->
  (forall p, reliable (page p)) -> calm w ->
  (loop page stopAt stopAtStore extractRoomCount fuel pageNum v w).1 = Normal tt.
Proof.
  intros Hq Hqs Hrel. revert pageNum v w.
  induction fuel as [|fuel IH]; intros pageNum v w Hcalm; [reflexivity|].
  cbn [loop]. rewrite Hq, arrive_false. rewrite (bool_decide_eq_false_2 _ Hcalm). cbn [andb].
  specialize (Hrel pageNum).
  destruct (page pageNum) as [e [?|e']|e [?|e']|e|[|row rows]|rows e']; cbn in Hrel;
    try contradiction; try (now apply IH); try reflexivity.
  match goal with |- context [processStores ?a ?b ?c ?d ?i0 ?f ?g] =>
    destruct (processStoresLogging_calm c d i0 f g Hqs Hcalm) as [H1 H2];
    unfold processStores;
    destruct (processStoresLogging a b (Normal tt) c d i0 f g) as [[[[]|err] v1] w1]
  end; cbn [fst snd] in *; [now apply IH | discriminate].
Qed.

End OkongolfFacts.

(** A stop request read by the first task of a page of two rows: that task
    saves and throws, the second task goes on, so its store is in the file
    and its index in the record that the job's own [progress] object holds;
    the run is rejected. *)
Lemma okongolf_tasks_run_on_after_stop :
  let run := Okongolf.scrapeOkongolf okongolfBusyPages (fun _ => false)
               (fun p i => Nat.eqb p 1 && Nat.eqb i 0) okongolfRooms freshWorld in
  run.1 = Rejected (ReferenceError "store")
  /\ w_output run.2 = Some [Okongolf.mkStore 2 "Beta" None "Busan" (Some 5)]
  /\ w_progress run.2 !! Okongolf.scraperId
     = Some (mkProgress (Some 0) (Some [0]) None None None (Some 1) (Some {[ 1 := [1] ]}) None)
  /\ getScraperStatus Okongolf.scraperId (w_status run.2) = idle.
Proof. cbn zeta. repeat split; vm_compute; reflexivity. Qed.

Lemma okongolf_processed_page_is_skipped_witness :
  let v := Okongolf.mkVars false {[ 1 := [0] ]} emptyRecord [] in
  Okongolf.processStores (fun _ _ => false) okongolfRooms 1
    [Okongolf.mkRow 1 "Alpha" "02-1234-5678" "Seoul" (Some "new_icon2_3.gif")] 0 v freshWorld
  = (Normal tt, v, freshWorld).
Proof.
  apply okongolf_processed_page_is_skipped.
  - intros i. reflexivity.
  - unfold OkongolfChecks.calm. vm_compute. discriminate.
  - intros i Hi. exists [0]. split; [reflexivity|].
    simpl in Hi. replace i with 0 by lia. now left.
Defined.

Lemma okongolf_stop_at_page_start_witness :
  exists w' : Okongolf.World,
    Okongolf.finish
      (Okongolf.loop okongolfPages stopAtOnce (fun _ _ => false) okongolfRooms 2 1
         (Okongolf.mkVars false ∅ (defaultRecord [0]) []) freshWorld)
    = (Rejected (ReferenceError "store"), w')
    /\ w_progress w' !! Okongolf.scraperId = Some (Okongolf.atPage 1 ∅)
    /\ getScraperStatus Okongolf.scraperId (w_status w') = idle
    /\ w_events w' = w_events (freshWorld : Okongolf.World)
    /\ w_output w' = w_output (freshWorld : Okongolf.World).
Proof.
  apply (okongolf_stop_at_page_start okongolfPages stopAtOnce (fun _ _ => false) okongolfRooms
           1 1 (Okongolf.mkVars false ∅ (defaultRecord [0]) []) freshWorld);
    reflexivity.
Defined.

Lemma okongolf_loop_survives_failures_witness :
  (Okongolf.loop okongolfFlakyPages (fun _ => false) (fun _ _ => false) okongolfRooms 2 1
     (Okongolf.mkVars false ∅ (defaultRecord [0]) []) freshWorld).1 = Normal tt.
Proof.
  apply okongolf_loop_survives_failures; intros; try reflexivity.
  - destruct p as [|[|[|p]]]; exact I.
  - unfold OkongolfChecks.calm. vm_compute. discriminate.
Defined.

Lemma okongolf_output_stays_valid_witness :
  OkongolfChecks.sinkValid
    (Okongolf.scrapeOkongolf okongolfBusyPages (fun _ => false)
       (fun p i => Nat.eqb p 1 && Nat.eqb i 0) okongolfRooms freshWorld).2.
Proof. apply okongolf_output_stays_valid. constructor. Defined.

(** ** citeezen.js: the array of stores *)

Section CiteezenFacts.

Import Citeezen CiteezenDedup.

Lemma some_link (allStores : list Store) (store : Store) :
  existsb (fun existingStore => String.eqb (link existingStore) (link store)) allStores = true
  <-> In (link store) (map link allStores).
Proof.
  rewrite existsb_exists, in_map_iff. split.
  - intros (x & Hx & Heq). apply String.eqb_eq in Heq. eauto.
  - intros (x & Heq & Hx). exists x. split; [exact Hx | now apply String.eqb_eq].
Qed.

Lemma addStores_cons (allStores : list Store) (store : Store) (stores : list Store) :
  addStores allStores (store :: stores)
  = addStores (if existsb (fun existingStore => String.eqb (link existingStore) (link store))
                    allStores
               then allStores else allStores ++ [store]) stores.
Proof. reflexivity. Qed.

Lemma addStores_prefix (allStores stores : list Store) :
  allStores `prefix_of` addStores allStores stores.
Proof.
  revert allStores. induction stores as [|store stores IH]; intros allStores; [reflexivity|].
  rewrite addStores_cons. destruct (existsb _ _); [apply IH|].
  etransitivity; [|apply IH]. now apply prefix_app_r.
Qed.

Lemma prefix_links (l1 l2 : list Store) (x : string) :
  l1 `prefix_of` l2 -> In x (map link l1) -> In x (map link l2).
Proof. intros [k ->] Hin. rewrite map_app, in_app_iff. now left. Qed.

Lemma addStores_covers (allStores stores : list Store) (store : Store) :
  In store stores -> In (link store) (map link (addStores allStores stores)).
Proof.
  revert allStores. induction stores as [|s stores IH]; intros allStores; [intros []|].
  intros [->|Hin]; rewrite addStores_cons; [|now apply IH].
  eapply prefix_links; [apply addStores_prefix|].
  destruct (existsb _ _) eqn:E; [now apply some_link|].
  rewrite map_app, in_app_iff. right. now left.
Qed.

Lemma addStores_absorbs (allStores stores : list Store) :
  (forall store, In store stores -> In (link store) (map link allStores)) ->
  addStores allStores stores = allStores.
Proof.
  revert allStores. induction stores as [|s stores IH]; intros allStores Hall; [reflexivity|].
  rewrite addStores_cons.
  rewrite (proj2 (some_link allStores s) (Hall s (or_introl eq_refl))).
  apply IH. intros store Hin. apply Hall. now right.
Qed.

Lemma addStores_distinct (allStores stores : list Store) :
  List.NoDup (map link allStores) -> List.NoDup (map link (addStores allStores stores)).
Proof.
  revert allStores. induction stores as [|s stores IH]; intros allStores Hnd; [exact Hnd|].
  rewrite addStores_cons. destruct (existsb _ _) eqn:E; apply IH; [exact Hnd|].
  rewrite map_app. cbn [map].
  apply List.NoDup_app; [exact Hnd | repeat constructor; intros [] |].
  intros x Hx [<-|[]]. apply some_link in Hx. congruence.
Qed.

(** X15.  [addStores], the [forEach] that merges a page into [allStores]:
    the stores it had stay where they were, at the front; every store of
    the page has its link in the result; and a page merged a second time
    adds nothing. *)
Theorem citeezen_merge_page (allStores stores : list Store) :
  allStores `prefix_of` addStores allStores stores
  /\ (forall store, In store stores -> In (link store) (map link (addStores allStores stores)))
  /\ addStores (addStores allStores stores) stores = addStores allStores stores.
Proof.
  split; [apply addStores_prefix|]. split; [intros store; apply addStores_covers|].
  apply addStores_absorbs. intros store. apply addStores_covers.
Qed.

(** X16.  When the links of [allStores] are pairwise different, they still
    are after a page is merged, whatever the page repeats. *)
Theorem citeezen_merge_keeps_links_distinct (allStores stores : list Store) :
  List.NoDup (map link allStores) -> List.NoDup (map link (addStores allStores stores)).
Proof. apply addStores_distinct. Qed.

Variable page : nat -> Page.
Variable stopSignal : nat -> bool.

(** What a run of the page loop does to the output file. *)
Lemma loop_output (fuel pageNum : nat) (allStores : list Store) (w : World) :
  let r := loop page stopSignal fuel pageNum allStores w in
  w_output r.2 = w_output w
  \/ exists stores', w_output r.2 = Some stores'
       /\ allStores `prefix_of` stores'
       /\ (List.NoDup (map link allStores) -> List.NoDup (map link stores')).
Proof.
  revert pageNum allStores w. induction fuel as [|fuel IH]; intros pageNum allStores w;
    [now left|].
  cbn [loop]. destruct (stopSignal pageNum); [now left|].
  destruct (page pageNum) as [e|[|store stores]]; [| now left |].
  - destruct (IH (S pageNum) allStores
                (save scraperName (atPage (pageNum + 1))
                   (emit (LogError pageNum e)
                      (emit (Fetch pageNum) (emit (UnitStart pageNum) w))))) as [H|H];
      [left; exact H | right; exact H].
  - right.
    match goal with |- context [loop _ _ _ _ ?a ?w0] =>
      destruct (IH (S pageNum) a w0) as [H|(stores' & H1 & H2 & H3)]
    end.
    + eexists. split; [rewrite H; reflexivity|].
      split; [apply addStores_prefix | apply addStores_distinct].
    + exists stores'. split; [exact H1|]. split.
      * etransitivity; [apply addStores_prefix | exact H2].
      * intros Hnd. apply H3. now apply addStores_distinct.
Qed.

Lemma scrapeCiteezen_output (chromium : bool) (w : World) :
  let run := scrapeCiteezen page stopSignal chromium w in
  loadAll w `prefix_of` loadAll run.2
  /\ (List.NoDup (map link (loadAll w)) -> List.NoDup (map link (loadAll run.2))).
Proof.
  unfold scrapeCiteezen.
  destruct (readProgress_omitted scraperName (w_progress w) eq_refl) as (r & -> & _).
  destruct chromium; [|now split].
  match goal with |- context [loop _ _ ?f ?p ?a ?w0] =>
    destruct (loop_output f p a w0) as [H|(stores' & H1 & H2 & H3)]
  end; cbn zeta in *.
  - unfold loadAll in *. rewrite H. cbn [w_output]. now split.
  - unfold loadAll in *. rewrite H1. cbn [w_output] in *. now split.
Qed.

(** X17.  A run of [scrapeCiteezen] never drops or reorders what the output
    file held: the stores loaded at the start are a prefix of the stores in
    the file at the end, whatever the pages give and whenever it is stopped. *)
Theorem citeezen_output_only_grows (chromium : bool) (w : World) :
  loadAll w `prefix_of` loadAll (scrapeCiteezen page stopSignal chromium w).2.
Proof. apply scrapeCiteezen_output. Qed.

(** X18.  When the links in the output file are pairwise different before a
    run of [scrapeCiteezen], they are after it. *)
Theorem citeezen_output_links_stay_distinct (chromium : bool) (w : World) :
  List.NoDup (map link (loadAll w)) ->
  List.NoDup (map link (loadAll (scrapeCiteezen page stopSignal chromium w).2)).
Proof. apply scrapeCiteezen_output. Qed.

Lemma removeDuplicates_from_spec (storeNames : gset string) (stores : list Store) :
  let unique := removeDuplicates_from storeNames stores in
  List.NoDup (map storeName unique)
  /\ unique `sublist_of` stores
  /\ (forall x, In x (map storeName unique) <-> In x (map storeName stores) /\ x ∉ storeNames).
Proof.
  revert storeNames. induction stores as [|store rest IH]; intros storeNames; cbn zeta.
  - cbn. split; [constructor|]. split; [constructor|]. intros x. tauto.
  - cbn [removeDuplicates_from]. destruct (decide (storeName store ∈ storeNames)) as [Hin|Hout].
    + destruct (IH storeNames) as (H1 & H2 & H3). split; [exact H1|].
      split; [now apply sublist_cons|]. intros x. rewrite H3. cbn [map In].
      split; [tauto|]. intros [[<-|Hx] Hn]; [contradiction | tauto].
    + destruct (IH ({[ storeName store ]} ∪ storeNames)) as (H1 & H2 & H3).
      split; [|split].
      * cbn [map]. constructor; [|exact H1]. rewrite H3. intros [_ Hn]. apply Hn.
        apply elem_of_union_l. now apply elem_of_singleton.
      * now apply sublist_skip.
      * intros x. cbn [map In]. rewrite H3. split.
        -- intros [<-|[Hx Hn]]; [tauto|]. split; [tauto|].
           intros Hs. apply Hn. now apply elem_of_union_r.
        -- intros [[<-|Hx] Hn]; [tauto|].
           destruct (decide (x = storeName store)) as [->|Hne]; [tauto|].
           right. split; [exact Hx|]. rewrite elem_of_union, elem_of_singleton. tauto.
Qed.

Lemma removeDuplicates_from_fixed (storeNames : gset string) (stores : list Store) :
  List.NoDup (map storeName stores) ->
  (forall x, In x (map storeName stores) -> x ∉ storeNames) ->
  removeDuplicates_from storeNames stores = stores.
Proof.
  revert storeNames. induction stores as [|store rest IH]; intros storeNames Hnd Hout;
    [reflexivity|].
  cbn [removeDuplicates_from]. cbn [map] in Hnd. inversion Hnd as [|? ? Hhead Hrest]; subst.
  rewrite decide_False by (apply Hout; now left). f_equal. apply IH; [exact Hrest|].
  intros x Hx. cbn [map In] in Hout. specialize (Hout x (or_intror Hx)).
  assert (x <> storeName store) by (intros ->; contradiction).
  rewrite elem_of_union, elem_of_singleton. tauto.
Qed.

(** X19.  [removeDuplicates] keeps one store of every name: the names of
    the result are pairwise different and are the names of the argument, the
    result is a sublist of the argument in the same order, and a second call
    changes nothing. *)
Theorem citeezen_removeDuplicates (stores : list Store) :
  let unique := removeDuplicates stores in
  List.NoDup (map storeName unique)
  /\ unique `sublist_of` stores
  /\ (forall x, In x (map storeName unique) <-> In x (map storeName stores))
  /\ removeDuplicates unique = unique.
Proof.
  cbn zeta. unfold removeDuplicates.
  destruct (removeDuplicates_from_spec ∅ stores) as (H1 & H2 & H3). cbn zeta in *.
  split; [exact H1|]. split; [exact H2|]. split.
  - intros x. rewrite H3. split; [tauto|]. intros Hx. split; [exact Hx | apply not_elem_of_empty].
  - apply removeDuplicates_from_fixed; [exact H1|]. intros x _. apply not_elem_of_empty.
Qed.

End CiteezenFacts.

Lemma citeezen_merge_keeps_links_distinct_witness :
  List.NoDup
    (map Citeezen.link
       (Citeezen.addStores [Citeezen.mkStore "A" "Seoul" "02-123-4567" "/shop/1"]
          [Citeezen.mkStore "B" "Busan" "" "/shop/2";
           Citeezen.mkStore "A2" "Seoul" "" "/shop/1";
           Citeezen.mkStore "B2" "Busan" "" "/shop/2"])).
Proof.
  apply (citeezen_merge_keeps_links_distinct
           [Citeezen.mkStore "A" "Seoul" "02-123-4567" "/shop/1"]).
  simpl. repeat constructor. intros [].
Defined.

Lemma citeezen_output_links_stay_distinct_witness :
  List.NoDup
    (map Citeezen.link
       (loadAll (Citeezen.scrapeCiteezen
                   (fun pageNum =>
                      match pageNum with
                      | 1 => Citeezen.Stores [Citeezen.mkStore "A" "Seoul" "" "/shop/1";
                                              Citeezen.mkStore "B" "Busan" "" "/shop/2"]
                      | 2 => Citeezen.Stores [Citeezen.mkStore "B" "Busan" "" "/shop/2";
                                              Citeezen.mkStore "C" "Daegu" "" "/shop/3"]
                      | _ => Citeezen.Stores []
                      end)
                   (fun _ => false) true freshWorld).2)).
Proof.
  apply (citeezen_output_links_stay_distinct _ (fun _ => false) true freshWorld).
  simpl. constructor.
Defined.

(** The step leaves the output file as it was. *)
Ltac same_file :=
  cbn [fst snd w_output save emit status writeJson];
  rewrite ?arrive_output; cbn [w_output emit]; reflexivity.

(** ** fieldzone.js: the registry and the file over a run *)

Section FieldzoneFacts.

Import Fieldzone FieldzoneChecks.
Variable page : nat -> Page.
Variables (stopAt : nat -> bool) (stopAtStore : nat -> nat -> bool).

Lemma active_arrive (b : bool) (w : World) : active w -> active (arrive scraperId b w).
Proof.
  destruct b; [|exact id]. intros _. unfold active, arrive, getScraperStatus.
  cbn [w_status status]. unfold stopScraper, setScraperStatus.
  rewrite lookup_insert_eq. discriminate.
Qed.

Lemma processStores_active (stores : list Store) (index pageNum : nat)
    (allStores : list Store) (w : World) :
  active w -> active (processStores stopAtStore stores index pageNum allStores w).2.
Proof.
  revert index allStores w. induction stores as [|store stores IH]; intros index allStores w Ha;
    [exact Ha|].
  cbn [processStores]. destruct (decide _).
  - now apply active_arrive.
  - apply IH. now apply active_arrive.
Qed.

Lemma processStores_grows (stores : list Store) (index pageNum : nat)
    (allStores : list Store) (w : World) :
  let r := processStores stopAtStore stores index pageNum allStores w in
  allStores `prefix_of` r.1.2
  /\ (w_output r.2 = w_output w \/ exists stores', w_output r.2 = Some stores'
                                     /\ allStores `prefix_of` stores').
Proof.
  revert index allStores w. induction stores as [|store stores IH]; intros index allStores w;
    [split; [reflexivity | now left]|].
  cbn [processStores]. destruct (decide _).
  - cbn. split; [reflexivity|]. left. apply arrive_output.
  - match goal with |- context [processStores _ _ ?i ?p ?a ?w0] =>
      destruct (IH i a w0) as [H1 H2]
    end. cbn zeta in *.
    assert (Hp : allStores `prefix_of` allStores ++ [store]) by now apply prefix_app_r.
    split; [etransitivity; [exact Hp | exact H1]|].
    right. destruct H2 as [H2|(stores' & H2 & H3)].
    + eexists. split; [rewrite H2; reflexivity | exact Hp].
    + exists stores'. split; [exact H2 | etransitivity; [exact Hp | exact H3]].
Qed.

Lemma loop_active (fuel pageNum : nat) (progress : ProgressRecord)
    (allStores : list Store) (w : World) :
  active w -> active (loop page stopAt stopAtStore fuel pageNum progress allStores w).2.
Proof.
  revert pageNum progress allStores w.
  induction fuel as [|fuel IH]; intros pageNum progress allStores w Ha; [exact Ha|].
  cbn [loop].
  assert (Ha' : active (arrive scraperId (stopAt pageNum) (emit (UnitStart pageNum) w)))
    by now apply active_arrive.
  destruct (decide _); [exact Ha'|].
  destruct (page pageNum) as [e|[|store stores] hasNextPage].
  - destruct e; exact Ha'.
  - exact Ha'.
  - match goal with |- context [processStores ?s ?l ?i ?p ?a ?w0] =>
      pose proof (processStores_active l i p a w0 Ha') as H1;
      destruct (processStores s l i p a w0) as [[[[]|e] allStores1] w1]
    end; cbn [snd] in H1.
    + destruct hasNextPage; [apply IH|]; exact H1.
    + destruct e; exact H1.
Qed.

(** X20.  [scrapeFieldzone] sets the status back to [idle] only when it
    completes: a run ends with the status [idle] exactly when it ran to
    the end of its [try] block, and a run that halted on a stop request
    leaves the status [stopped]. *)
Theorem fieldzone_idle_only_when_completed (pLimit : option JsError) (w : World) :
  let run := scrapeFieldzone page stopAt stopAtStore pLimit w in
  (run.1 = Completed <-> getScraperStatus scraperId (w_status run.2) = idle)
  /\ (run.1 = Halted -> getScraperStatus scraperId (w_status run.2) = stopped).
Proof.
  unfold scrapeFieldzone. destruct pLimit as [err|].
  - cbn. unfold getScraperStatus, setScraperStatus. rewrite lookup_insert_eq.
    repeat split; discriminate.
  - destruct (readProgress_omitted scraperId
                (w_progress (status (setScraperStatus scraperId running) w)) eq_refl) as (r & -> & _).
    match goal with |- context [loop _ _ _ ?f ?p ?pr ?a ?w0] =>
      assert (Ha : active w0);
      [| pose proof (loop_active f p pr a w0 Ha) as H1;
         destruct (loop page stopAt stopAtStore f p pr a w0) as [[[]|e] w1] ]
    end.
    + unfold active, getScraperStatus, setScraperStatus. cbn [w_status status].
      rewrite lookup_insert_eq. discriminate.
    + cbn [finish snd] in *. destruct (decide _) as [Hs|Hs]; cbn [fst snd].
      * rewrite Hs. repeat split; discriminate.
      * rewrite status_idle_after_reset. repeat split; discriminate.
    + cbn [finish fst snd] in *. repeat split; try discriminate.
      intros Hidle. now apply H1 in Hidle.
Qed.

Lemma loop_grows (fuel pageNum : nat) (progress : ProgressRecord)
    (allStores : list Store) (w : World) :
  let r := loop page stopAt stopAtStore fuel pageNum progress allStores w in
  w_output r.2 = w_output w
  \/ exists stores', w_output r.2 = Some stores' /\ allStores `prefix_of` stores'.
Proof.
  revert pageNum progress allStores w.
  induction fuel as [|fuel IH]; intros pageNum progress allStores w; [now left|].
  cbn [loop]. destruct (decide _); [left; same_file|].
  destruct (page pageNum) as [e|[|store stores] hasNextPage].
  - left. destruct e; same_file.
  - left. same_file.
  - match goal with |- context [processStores ?s ?l ?i ?p ?a ?w0] =>
      destruct (processStores_grows l i p a w0) as [H1 H2];
      assert (Hw0 : w_output w0 = w_output w) by same_file;
      destruct (processStores s l i p a w0) as [[[[]|e] allStores1] w1]
    end; cbn [fst snd] in *; rewrite Hw0 in H2.
    + destruct hasNextPage; [|exact H2].
      match goal with |- context [loop _ _ _ ?f ?p ?pr ?a ?w0] =>
        destruct (IH p pr a w0) as [H3|(stores' & H3 & H4)]
      end; cbn zeta in *.
      * rewrite H3. exact H2.
      * right. exists stores'. split; [exact H3 | etransitivity; [exact H1 | exact H4]].
    + destruct e; exact H2.
Qed.

(** X21.  A run of [scrapeFieldzone] only appends to the output file: the
    stores loaded at the start are a prefix of the stores in the file at the
    end, however the run ends. *)
Theorem fieldzone_output_only_grows (pLimit : option JsError) (w : World) :
  loadAll w `prefix_of` loadAll (scrapeFieldzone page stopAt stopAtStore pLimit w).2.
Proof.
  unfold scrapeFieldzone. destruct pLimit as [err|]; [reflexivity|].
  destruct (readProgress_omitted scraperId
              (w_progress (status (setScraperStatus scraperId running) w)) eq_refl) as (r & -> & _).
  match goal with |- context [loop _ _ _ ?f ?p ?pr ?a ?w0] =>
    destruct (loop_grows f p pr a w0) as [H|(stores' & H1 & H2)];
    destruct (loop page stopAt stopAtStore f p pr a w0) as [[[]|e] w1]
  end; cbn [finish fst snd] in *; try destruct (decide _);
    unfold loadAll in *; cbn [fst snd w_output status] in *.
  all: first [ rewrite H; reflexivity | rewrite H1; exact H2 ].
Qed.

End FieldzoneFacts.

(** ** thekgolf.js: the file and the requests over a run *)

Section TheKgolfRunFacts.

Import TheKgolf.
Variable post : nat -> Response.
Variable stopAt : nat -> bool.

Lemma fetched_snoc {U : Type} (events : list (Event U)) (e : Event U) :
  fetched (events ++ [e]) = fetched events ++ fetched [e].
Proof. apply omap_app. Qed.

Lemma thekgolf_loop_grows (rest : list Shop) (shopIndex : nat)
    (detailedShops : list DetailedShop) (w : World) :
  let r := loop post stopAt rest shopIndex detailedShops w in
  (forall detailedShops', r.1 = Normal detailedShops' -> detailedShops `prefix_of` detailedShops')
  /\ (w_output r.2 = w_output w
      \/ exists detailedShops', w_output r.2 = Some detailedShops'
           /\ detailedShops `prefix_of` detailedShops').
Proof.
  revert shopIndex detailedShops w.
  induction rest as [|shop rest IH]; intros shopIndex detailedShops w; cbn zeta.
  - split; [intros ? [= <-]; reflexivity | now left].
  - cbn [loop]. destruct (decide _).
    + split; [discriminate|]. left. same_file.
    + destruct (shopId shop) as [id|].
      * destruct (post shopIndex) as [sensors| |e].
        -- match goal with |- context [loop _ _ _ ?i ?d ?w0] =>
             destruct (IH i d w0) as [H1 H2]
           end. cbn zeta in *.
           assert (Hp : detailedShops `prefix_of` detailedShops ++ [mkDetailed shop sensors])
             by now apply prefix_app_r.
           split.
           ++ intros d' Hd'. etransitivity; [exact Hp | now apply H1].
           ++ right. destruct H2 as [H2|(d' & H2 & H3)].
              ** eexists. split; [rewrite H2; reflexivity | exact Hp].
              ** exists d'. split; [exact H2 | etransitivity; [exact Hp | exact H3]].
        -- match goal with |- context [loop _ _ _ ?i ?d ?w0] =>
             destruct (IH i d w0) as [H1 H2]
           end. cbn zeta in *. split; [exact H1|].
           destruct H2 as [H2|H2]; [left; rewrite H2; same_file | right; exact H2].
        -- match goal with |- context [loop _ _ _ ?i ?d ?w0] =>
             destruct (IH i d w0) as [H1 H2]
           end. cbn zeta in *. split; [exact H1|].
           destruct H2 as [H2|H2]; [left; rewrite H2; same_file | right; exact H2].
      * match goal with |- context [loop _ _ _ ?i ?d ?w0] =>
          destruct (IH i d w0) as [H1 H2]
        end. cbn zeta in *. split; [exact H1|].
        destruct H2 as [H2|H2]; [left; rewrite H2; same_file | right; exact H2].
Qed.

(** X22.  A run of [scrapeTheKgolf] only appends to the output file: the
    records loaded at the start are a prefix of the records in the file at
    the end, whatever the input file is and however the run ends. *)
Theorem thekgolf_output_only_grows (input : InputFile) (w : World) :
  loadAll w `prefix_of` loadAll (scrapeTheKgolf post stopAt input w).2.
Proof.
  unfold scrapeTheKgolf.
  destruct (readProgress_omitted scraperId
              (w_progress (status (setScraperStatus scraperId running) w)) eq_refl) as (r & -> & _).
  destruct input as [|e|shops]; [reflexivity | reflexivity |].
  match goal with |- context [loop _ _ ?l ?i ?d ?w0] =>
    destruct (thekgolf_loop_grows l i d w0) as [H1 H2];
    destruct (loop post stopAt l i d w0) as [[d'|e] w1]
  end; cbn [fst snd] in *.
  - cbn [finish snd]. unfold loadAll at 2. cbn [w_output status writeJson]. now apply H1.
  - assert (Hw1 : loadAll w `prefix_of` loadAll w1).
    { unfold loadAll in *. cbn [w_output status] in *.
      destruct H2 as [H2|(d' & H2 & H3)]; rewrite H2; [reflexivity | exact H3]. }
    destruct e; exact Hw1.
Qed.

Lemma thekgolf_loop_fetched (rest : list Shop) (shopIndex : nat)
    (detailedShops : list DetailedShop) (w : World) :
  exists units : list nat,
    fetched (w_events (loop post stopAt rest shopIndex detailedShops w).2)
    = fetched (w_events w) ++ units
    /\ Forall (fun u => shopIndex <= u
                        /\ exists shop, rest !! (u - shopIndex) = Some shop
                                        /\ is_Some (shopId shop)) units.
Proof.
  revert shopIndex detailedShops w.
  induction rest as [|shop rest IH]; intros shopIndex detailedShops w.
  - exists []. split; [now rewrite app_nil_r | constructor].
  - assert (Hshift : forall units,
              Forall (fun u => S shopIndex <= u
                               /\ exists s, rest !! (u - S shopIndex) = Some s
                                            /\ is_Some (shopId s)) units ->
              Forall (fun u => shopIndex <= u
                               /\ exists s, (shop :: rest) !! (u - shopIndex) = Some s
                                            /\ is_Some (shopId s)) units).
    { intros units. apply List.Forall_impl. intros u [Hle Hs]. split; [lia|].
      replace (u - shopIndex) with (S (u - S shopIndex)) by lia. exact Hs. }
    cbn [loop]. destruct (decide _).
    + exists []. split; [|constructor].
      cbn [snd w_events status save]. rewrite arrive_events. cbn [w_events emit].
      rewrite fetched_snoc. reflexivity.
    + destruct (shopId shop) as [id|] eqn:Eid.
      * assert (Hhere : shopIndex <= shopIndex
                        /\ exists s, (shop :: rest) !! (shopIndex - shopIndex) = Some s
                                     /\ is_Some (shopId s)).
        { split; [lia|]. exists shop. rewrite Nat.sub_diag, Eid. split; [reflexivity | eauto]. }
        destruct (post shopIndex) as [sensors| |e];
          match goal with |- context [loop _ _ _ ?i ?d ?w0] =>
            destruct (IH i d w0) as (units & H1 & H2)
          end; exists (shopIndex :: units); (split; [|constructor; [exact Hhere | now apply Hshift]]);
          rewrite H1; cbn [w_events save writeJson emit]; rewrite arrive_events;
          cbn [w_events emit]; rewrite !fetched_snoc; cbn; rewrite ?app_nil_r, <- ?app_assoc;
          reflexivity.
      * match goal with |- context [loop _ _ _ ?i ?d ?w0] =>
          destruct (IH i d w0) as (units & H1 & H2)
        end. exists units. split; [|now apply Hshift].
        rewrite H1. cbn [w_events emit]. rewrite arrive_events. cbn [w_events emit].
        rewrite !fetched_snoc. cbn. now rewrite !app_nil_r.
Qed.

(** X23.  Every request a run of [scrapeTheKgolf] makes is for a shop of the
    input file that has an id: the units fetched during the run are indexes
    of the file whose shop has a [shopId]; without a readable input file no
    request is made. *)
Theorem thekgolf_requests_only_shops_with_id (input : InputFile) (w : World) :
  exists units : list nat,
    fetched (w_events (scrapeTheKgolf post stopAt input w).2) = fetched (w_events w) ++ units
    /\ Forall (fun u => exists shops shop,
                 input = Readable shops /\ shops !! u = Some shop /\ is_Some (shopId shop))
         units.
Proof.
  unfold scrapeTheKgolf.
  destruct (readProgress_omitted scraperId
              (w_progress (status (setScraperStatus scraperId running) w)) eq_refl) as (r & -> & _).
  destruct input as [|e|shops];
    [exists []; split; [now rewrite app_nil_r | constructor] ..|].
  match goal with |- context [loop _ _ ?l ?i ?d ?w0] =>
    destruct (thekgolf_loop_fetched l i d w0) as (units & H1 & H2);
    destruct (loop post stopAt l i d w0) as [[d'|e] w1]
  end; cbn [snd w_events status] in H1; exists units.
  all: split;
    [ try destruct e; cbn [finish snd w_events status writeJson]; exact H1
    | revert H2; apply List.Forall_impl; intros u (Hle & shop & Hshop & Hid);
      exists shops, shop; split; [reflexivity|]; split; [|exact Hid];
      rewrite lookup_drop in Hshop; rewrite <- Hshop; f_equal; lia ].
Qed.

End TheKgolfRunFacts.

(** ** friendgolf.js: one shop per id *)

Section FriendGolfUnique.

Import FriendGolf.

Lemma uniqueFrom_spec (seen : list string) (allShops : list Shop) :
  let unique := uniqueFrom seen allShops in
  List.NoDup (map shopId unique)
  /\ Forall (fun shop => exists id, shopId shop = Some id /\ id ∉ seen) unique
  /\ unique `sublist_of` allShops
  /\ (forall shop id, In shop allShops -> shopId shop = Some id -> id ∉ seen ->
        In (Some id) (map shopId unique)).
Proof.
  revert seen. induction allShops as [|shop rest IH]; intros seen; cbn zeta.
  - cbn. repeat split; try constructor. intros ? ? [].
  - cbn [uniqueFrom]. destruct (shopId shop) as [id|] eqn:Eid.
    + destruct (decide (id ∈ seen)) as [Hin|Hout].
      * destruct (IH seen) as (H1 & H2 & H3 & H4). repeat split; try assumption.
        -- now apply sublist_cons.
        -- intros s i [<-|Hs] Hi Hn; [congruence | eauto].
      * destruct (IH (id :: seen)) as (H1 & H2 & H3 & H4). repeat split.
        -- cbn [map]. constructor; [|exact H1]. rewrite Eid, in_map_iff.
           intros (s & Hs & Hin). apply list_elem_of_In in Hin.
           rewrite Forall_forall in H2. destruct (H2 s Hin) as (i & Hi & Hn).
           apply Hn. rewrite Hi in Hs. injection Hs as ->. now left.
        -- constructor; [eauto|]. revert H2. apply List.Forall_impl.
           intros s (i & Hi & Hn). exists i. split; [exact Hi|].
           intros Hs. apply Hn. now right.
        -- now apply sublist_skip.
        -- intros s i [<-|Hs] Hi Hn; cbn [map In]; [left; congruence|].
           destruct (decide (i = id)) as [->|Hne]; [left; congruence|].
           right. apply (H4 s i Hs Hi). rewrite elem_of_cons. tauto.
    + destruct (IH seen) as (H1 & H2 & H3 & H4). repeat split; try assumption.
      * now apply sublist_cons.
      * intros s i [<-|Hs] Hi Hn; [congruence | eauto].
Qed.

Lemma uniqueFrom_fixed (seen : list string) (allShops : list Shop) :
  List.NoDup (map shopId allShops) ->
  Forall (fun shop => exists id, shopId shop = Some id /\ id ∉ seen) allShops ->
  uniqueFrom seen allShops = allShops.
Proof.
  revert seen. induction allShops as [|shop rest IH]; intros seen Hnd Hall; [reflexivity|].
  cbn [map] in Hnd. inversion Hnd as [|? ? Hhead Hrest]; subst.
  inversion Hall as [|? ? (id & Hid & Hn) Hall']; subst.
  cbn [uniqueFrom]. rewrite Hid, decide_False by exact Hn. f_equal.
  apply IH; [exact Hrest|]. rewrite Forall_forall in Hall'. apply Forall_forall.
  intros s Hs. destruct (Hall' s Hs) as (i & Hi & Hni). exists i. split; [exact Hi|].
  rewrite elem_of_cons. intros [->|Hin]; [|contradiction].
  apply Hhead. rewrite Hid, <- Hi. apply in_map. now apply list_elem_of_In.
Qed.

(** The shop kept for an id is the first shop of the list with that id. *)
Lemma uniqueFrom_first (seen : list string) (allShops : list Shop) :
  Forall (fun shop =>
            List.find (fun x => bool_decide (shopId x = shopId shop)) allShops = Some shop)
    (uniqueFrom seen allShops).
Proof.
  revert seen. induction allShops as [|shop rest IH]; intros seen; [constructor|].
  assert (Hskip : forall seen' : list string,
            (forall s, s ∈ uniqueFrom seen' rest -> shopId s <> shopId shop) ->
            Forall (fun s => List.find (fun x => bool_decide (shopId x = shopId s)) (shop :: rest)
                             = Some s) (uniqueFrom seen' rest)).
  { intros seen' Hdiff. apply Forall_forall. intros s Hs. cbn [List.find].
    rewrite bool_decide_eq_false_2 by (intros Heq; now apply (Hdiff s Hs)).
    specialize (IH seen'). rewrite Forall_forall in IH. now apply IH. }
  destruct (uniqueFrom_spec seen rest) as (_ & Hin & _).
  cbn [uniqueFrom]. destruct (shopId shop) as [id|] eqn:Eid.
  - destruct (decide (id ∈ seen)) as [Hseen|Hout].
    + apply Hskip. intros s Hs Heq. rewrite Forall_forall in Hin.
      destruct (Hin s Hs) as (i & Hi & Hn). rewrite Heq in Hi. injection Hi as <-. contradiction.
    + constructor.
      * cbn [List.find]. now rewrite bool_decide_eq_true_2.
      * apply Hskip. intros s Hs Heq.
        destruct (uniqueFrom_spec (id :: seen) rest) as (_ & Hin' & _).
        rewrite Forall_forall in Hin'. destruct (Hin' s Hs) as (i & Hi & Hn).
        rewrite Heq in Hi. injection Hi as <-. apply Hn. now left.
  - apply Hskip. intros s Hs Heq. rewrite Forall_forall in Hin.
    destruct (Hin s Hs) as (i & Hi & _). congruence.
Qed.

(** X24.  [uniqueShops], the [Map] keyed by [shopId] that is written after
    each region: every shop of the result has an id and no two share one;
    the shop kept for an id is the first shop of the argument with that id;
    the result is a sublist of the argument in the same order; every id of
    the argument is kept; and a second pass changes nothing. *)
Theorem friendgolf_uniqueShops (allShops : list Shop) :
  let unique := uniqueShops allShops in
  List.NoDup (map shopId unique)
  /\ Forall (fun shop => is_Some (shopId shop)) unique
  /\ Forall (fun shop =>
               List.find (fun x => bool_decide (shopId x = shopId shop)) allShops = Some shop)
       unique
  /\ unique `sublist_of` allShops
  /\ (forall shop id, In shop allShops -> shopId shop = Some id ->
        In (Some id) (map shopId unique))
  /\ uniqueShops unique = unique.
Proof.
  cbn zeta. unfold uniqueShops.
  destruct (uniqueFrom_spec [] allShops) as (H1 & H2 & H3 & H4). cbn zeta in *.
  split; [exact H1|]. split; [|split; [apply uniqueFrom_first|]].
  - revert H2. apply List.Forall_impl. intros s (i & Hi & _). rewrite Hi. eauto.
  - split; [exact H3|]. split.
    + intros s i Hs Hi. apply (H4 s i Hs Hi). apply not_elem_of_nil.
    + now apply uniqueFrom_fixed.
Qed.

Variable search : nat * nat -> Search.
Variable stopAt : nat * nat -> bool.
Variable stopInner : nat * nat -> nat -> bool.



End FriendGolfUnique.

